(** * applyMiddleware: the middleware enhancer of the store

    A shallow embedding of [src/lib/redux/applyMiddleware.ts].

    The enhancer is higher-order, stateful code: it declares a local variable
    [dispatch], hands a view of it to client code (the middleware), and
    reassigns it once the chain is composed.  The embedding has three layers.

    - [B]: the code of the base container (state-and-error passing over the
      client heap [U]).  The local variable [dispatch] is not in its scope.
    - [prog]: middleware code, a small free monad whose operations are the
      ones a middleware has: a step on the client heap, [throw],
      [try]/[catch], and a call through [middlewareAPI.dispatch], that is
      through the variable.  A call of [next] is plain application.
    - [M]: the enhancer itself, state-and-error passing over [World], which
      adds the variable [dispatch] to the client heap.

    A call through the variable can re-enter the chain, so the interpreter
    [run] takes fuel: one unit per nested call through the variable.

    The file follows one call of the enhanced constructor, hence one variable
    [dispatch].  In [applyMiddleware] the containers are values, so the
    object spread [{...store, dispatch}] is the construction of a record;
    [applyMiddleware_objects] is the same code with the containers as objects
    behind references, for what is said of the object the base constructor
    made.  [./compose] and the types of [./types] are not among the sources:
    [compose] is modelled from the specification, the types from their
    use. *)

From Stdlib Require Import List String ZArith.
Import ListNotations.

Set Implicit Arguments.

(** A thrown [Error] with its message. *)
Inductive Exn : Type := Error (message : string).

(** How a call ends: it returns, it throws, or it does not return. *)
Inductive Out (A : Type) : Type :=
| Ok (a : A)
| Threw (e : Exn)
| Diverge.
Arguments Ok {A} a.
Arguments Threw {A} e.
Arguments Diverge {A}.

Definition returned {A} (o : Out A) : bool :=
  match o with Ok _ => true | _ => false end.

Section Redux.

(** [State], [Action] and the result of a dispatch are the container's own;
    [Arg] stands for the extra positional arguments ([...args]); [Rest] for
    the fields of a store besides [getState] and [dispatch]; [U] for the
    client heap (the state held by the base container and by middleware). *)
Variables State Action Arg Res Reducer Rest U : Type.

(** ** Base-container code *)

Definition B (X : Type) : Type := U -> Out X * U.

Definition BaseDispatch : Type := Action -> list Arg -> B Res.

(** ** Middleware code *)

(** Code that ends with a value of type [A]:
    - [Ret a] returns [a];
    - [Throw e] throws [e];
    - [Op f k] calls the base-container or heap function [f], then goes on
      with [k];
    - [TryCatch body handler k] is [try { body } catch (e) { handler(e) }],
      then [k];
    - [CallCell action args k] is [dispatch(action, ...args)] where
      [dispatch] is the variable of the enhanced constructor, then [k]. *)
Inductive prog (A : Type) : Type :=
| Ret (a : A)
| Throw (e : Exn)
| Op {X : Type} (f : B X) (k : X -> prog A)
| TryCatch {X : Type} (body : prog X) (handler : Exn -> prog X)
    (k : X -> prog A)
| CallCell (action : Action) (args : list Arg) (k : Res -> prog A).

Arguments Ret {A} a.
Arguments Throw {A} e.
Arguments Op {A X} f k.
Arguments TryCatch {A X} body handler k.
Arguments CallCell {A} action args k.

Fixpoint bind {A C} (p : prog A) (g : A -> prog C) : prog C :=
  match p with
  | Ret a => g a
  | Throw e => Throw e
  | Op f k => Op f (fun x => bind (k x) g)
  | TryCatch body handler k => TryCatch body handler (fun x => bind (k x) g)
  | CallCell action args k => CallCell action args (fun r => bind (k r) g)
  end.

(** [Dispatch] is [(action, ...args) => any]. *)
Definition Dispatch : Type := Action -> list Arg -> prog Res.

(** [Store] with its [dispatch] typed [D]: the base constructor returns a
    [Store BaseDispatch], the enhanced one a [Store Dispatch]. *)
Record Store (D : Type) : Type := mkStore {
  getState : B State;
  dispatch : D;
  rest : Rest
}.

Record MiddlewareAPI : Type := mkAPI {
  api_getState : B State;
  api_dispatch : Dispatch
}.

(** [Middleware] is [api => next => (action, ...args) => any]; each arrow is
    a call, so each may have effects and may throw. *)
Definition Transform : Type := Dispatch -> prog Dispatch.
Definition Middleware : Type := MiddlewareAPI -> prog Transform.

(** [createStore] is [(reducer, ...args) => store]. *)
Definition StoreCreator : Type :=
  Reducer -> list Arg -> B (Store BaseDispatch).

(** A base-container function called from middleware code. *)
Definition call {X} (f : B X) : prog X := Op f Ret.

(** [store.dispatch] passed where a [Dispatch] is expected. *)
Definition base_dispatch (d : BaseDispatch) : Dispatch :=
  fun action args => call (d action args).

(** ** The world of the enhancer *)

(** [cell] is the local variable [dispatch] of the enhanced constructor.
    [calls] is a ghost field: the calls made through the variable so far,
    latest first.  No program reads it. *)
Record World : Type := mkWorld {
  cell : Dispatch;
  user : U;
  calls : list (Action * list Arg)
}.

Definition set_user (w : World) (u : U) : World :=
  mkWorld (cell w) u (calls w).

Definition set_cell (w : World) (d : Dispatch) : World :=
  mkWorld d (user w) (calls w).

Definition note_call (w : World) (action : Action) (args : list Arg)
  : World :=
  mkWorld (cell w) (user w) ((action, args) :: calls w).

(** A result of type [X] seen at type [A] once it is known not to be [Ok]. *)
Definition failed {X A} (o : Out X) : Out A :=
  match o with
  | Ok _ => Diverge
  | Threw e => Threw e
  | Diverge => Diverge
  end.

(** [run fuel p w] executes middleware code.  A call through the variable
    reads [cell] at the time of the call and costs one unit of fuel. *)
Fixpoint run (fuel : nat) : forall A, prog A -> World -> Out A * World :=
  fix go (A : Type) (p : prog A) (w : World) {struct p} : Out A * World :=
    match p with
    | Ret a => (Ok a, w)
    | Throw e => (Threw e, w)
    | Op f k =>
        match f (user w) with
        | (Ok x, u) => go A (k x) (set_user w u)
        | (o, u) => (failed o, set_user w u)
        end
    | TryCatch body handler k =>
        match go _ body w with
        | (Ok x, w1) => go A (k x) w1
        | (Threw e, w1) =>
            match go _ (handler e) w1 with
            | (Ok x, w2) => go A (k x) w2
            | (o, w2) => (failed o, w2)
            end
        | (Diverge, w1) => (Diverge, w1)
        end
    | CallCell action args k =>
        match fuel with
        | O => (Diverge, w)
        | S n =>
            match run n (cell w action args) (note_call w action args) with
            | (Ok r, w1) => go A (k r) w1
            | (o, w1) => (failed o, w1)
            end
        end
    end.
Arguments run fuel {A} p w.

(** ** The enhancer's monad *)

Definition M (A : Type) : Type := nat -> World -> Out A * World.

Definition ret {A} (a : A) : M A := fun _ w => (Ok a, w).

Definition mbind {A C} (m : M A) (g : A -> M C) : M C :=
  fun fuel w =>
    match m fuel w with
    | (Ok a, w1) => g a fuel w1
    | (o, w1) => (failed o, w1)
    end.

(** Client code run from the enhancer. *)
Definition exec {A} (p : prog A) : M A := fun fuel w => run fuel p w.

(** An assignment to the variable [dispatch]. *)
Definition assign (d : Dispatch) : M unit :=
  fun _ w => (Ok tt, set_cell w d).

Notation "x <- m ;; k" := (mbind m (fun x => k))
  (at level 61, m at next level, right associativity).
Notation "m ;;; k" := (mbind m (fun _ => k))
  (at level 61, right associativity).

(** [xs.map(f)] where [f] may have effects: left to right, abandoned at the
    first call that does not return. *)
Fixpoint map_prog {X Y} (f : X -> prog Y) (xs : list X) : prog (list Y) :=
  match xs with
  | [] => Ret []
  | x :: xs' =>
      bind (f x) (fun y => bind (map_prog f xs') (fun ys => Ret (y :: ys)))
  end.

(** The step of the reduction in [compose]: [(a, b) => x => a(b(x))]. *)
Definition after {X} (a b : X -> prog X) : X -> prog X :=
  fun x => bind (b x) a.

(** Modelled from the spec: [compose] ([./compose] is not among the sources).
    Zero functions give the identity, one function is returned as it is, two
    or more are reduced from the left with [(a, b) => x => a(b(x))]. *)
Definition compose {X} (funcs : list (X -> prog X)) : X -> prog X :=
  match funcs with
  | [] => fun arg => Ret arg
  | [f] => f
  | f :: more => fold_left after more f
  end.

(** ** applyMiddleware *)

Definition guard_message : string :=
  ("Dispatching while constructing your middleware is not allowed. " ++
   "Other middleware would not be applied to this dispatch.")%string.

Definition guard_error : Exn := Error guard_message.

(** The function first held by the variable [dispatch]. *)
Definition guard : Dispatch :=
  fun _ _ => Throw guard_error.

(** [middlewareAPI]: [getState] is the store's; [dispatch] calls whatever the
    variable holds when it is called. *)
Definition middlewareAPI (store : Store BaseDispatch) : MiddlewareAPI :=
  {| api_getState := getState store;
     api_dispatch := fun action args => CallCell action args Ret |}.

Definition applyMiddleware (middlewares : list Middleware)
    (createStore : StoreCreator) (reducer : Reducer) (args : list Arg)
  : M (Store Dispatch) :=
  store <- exec (call (createStore reducer args)) ;;
  assign guard ;;;
  chain <- exec (map_prog (fun middleware : Middleware =>
                             middleware (middlewareAPI store))
                          middlewares) ;;
  composed <- exec (compose chain (base_dispatch (dispatch store))) ;;
  assign composed ;;;
  ret {| getState := getState store;
         dispatch := composed;
         rest := rest store |}.

(** ** Notions the statements use *)

(** A world with an older record of calls under its own. *)
Definition with_calls (w : World) (older : list (Action * list Arg)) : World :=
  mkWorld (cell w) (user w) (calls w ++ older).

(** Two worlds that differ at most in the ghost field. *)
Definition same_but_calls (w w' : World) : Prop :=
  cell w = cell w' /\ user w = user w'.

Definition same_runs {A} (p q : prog A) : Prop :=
  forall fuel w, run fuel p w = run fuel q w.

(** [middlewares.map((middleware) => middleware(api))] *)
Definition instantiate (api : MiddlewareAPI) (middlewares : list Middleware)
  : prog (list Transform) :=
  map_prog (fun middleware : Middleware => middleware api) middlewares.

(** The world in which the middleware are instantiated: the store is built
    and the variable holds the guard. *)
Definition guarded (w : World) (u : U) : World :=
  set_cell (set_user w u) guard.

(** [instantiated api fuel mws w chain w'] : from [w], each constructor of
    [mws] is called once with [api], in the order of the list, each from the
    world the one before left; they return [chain] and leave [w']. *)
Inductive instantiated (api : MiddlewareAPI) (fuel : nat)
  : list Middleware -> World -> list Transform -> World -> Prop :=
| inst_nil w : instantiated api fuel [] w [] w
| inst_cons middleware mws t chain w w1 w2 :
    run fuel (middleware api) w = (Ok t, w1) ->
    instantiated api fuel mws w1 chain w2 ->
    instantiated api fuel (middleware :: mws) w (t :: chain) w2.

(** [later w w'] : [w'] is reached from [w] by client code, the runs of any
    programs one after another. *)
Inductive later (w : World) : World -> Prop :=
| later_now : later w w
| later_run A (p : prog A) fuel w1 o w2 :
    later w w1 -> run fuel p w1 = (o, w2) -> later w w2.

(** Code without [try]/[catch]. *)
Fixpoint catch_free {A} (p : prog A) : Prop :=
  match p with
  | Ret _ => True
  | Throw _ => True
  | Op _ k => forall x, catch_free (k x)
  | TryCatch _ _ _ => False
  | CallCell _ _ k => forall r, catch_free (k r)
  end.

(** ** The guard claims as they are worded *)

(** The claim C1 as it is worded, for one construction: if a call through
    the variable was made while the middleware were instantiated, the
    construction ends with the guard's error. *)
Definition guard_call_fails_construction (mws : list Middleware)
    (createStore : StoreCreator) reducer args fuel w : Prop :=
  forall store u1,
    createStore reducer args (user w) = (Ok store, u1) ->
    calls (snd (run fuel (instantiate (middlewareAPI store) mws)
                         (guarded w u1)))
      <> calls (guarded w u1) ->
    fst (applyMiddleware mws createStore reducer args fuel w)
    = Threw guard_error.

(** The claim C9 as it is worded, for one construction: a call through the
    variable made while the middleware are instantiated does not keep the
    construction from returning its container. *)
Definition guard_call_spares_construction (mws : list Middleware)
    (createStore : StoreCreator) reducer args fuel w : Prop :=
  forall store u1,
    createStore reducer args (user w) = (Ok store, u1) ->
    calls (snd (run fuel (instantiate (middlewareAPI store) mws)
                         (guarded w u1)))
      <> calls (guarded w u1) ->
    returned (fst (applyMiddleware mws createStore reducer args fuel w))
    = true.

(** ** Callers and sample handlers *)

(** A caller dispatching actions one after the other: what each call gave
    and the heap they leave.  A call that does not return ends the session; a
    call that throws does not. *)
Fixpoint base_session (d : BaseDispatch) (todo : list (Action * list Arg))
    (u : U) : list (Out Res) * U :=
  match todo with
  | [] => ([], u)
  | (action, args) :: todo' =>
      match d action args u with
      | (Diverge, u1) => ([Diverge], u1)
      | (o, u1) =>
          let (os, u2) := base_session d todo' u1 in (o :: os, u2)
      end
  end.

Fixpoint session (fuel : nat) (d : Dispatch) (todo : list (Action * list Arg))
    (w : World) : list (Out Res) * World :=
  match todo with
  | [] => ([], w)
  | (action, args) :: todo' =>
      match run fuel (d action args) w with
      | (Diverge, w1) => ([Diverge], w1)
      | (o, w1) =>
          let (os, w2) := session fuel d todo' w1 in (o :: os, w2)
      end
  end.

(** A transform without effects of its own: [next => handler]. *)
Definition pure_transform (h : Dispatch -> Dispatch) : Transform :=
  fun next => Ret (h next).

(** A middleware whose two outer calls have no effect: [api => next =>
    handler]. *)
Definition pure_middleware (h : Dispatch -> Dispatch) : Middleware :=
  fun _ => Ret (pure_transform h).

Definition nest (hs : list (Dispatch -> Dispatch)) (d : Dispatch) : Dispatch :=
  fold_right (fun h acc => h acc) d hs.

(** A step on the heap that returns. *)
Definition step (f : U -> U) : B unit := fun u => (Ok tt, f u).

(** [next => (action, ...args) => { before(); const r = next(action,
    ...args); after(); return r }]. *)
Definition around (before after : U -> U) (next : Dispatch) : Dispatch :=
  fun action args =>
    bind (call (step before)) (fun _ =>
    bind (next action args) (fun r =>
    bind (call (step after)) (fun _ => Ret r))).

Definition befores (bas : list ((U -> U) * (U -> U))) (u : U) : U :=
  fold_left (fun u ba => fst ba u) bas u.

Definition afters (bas : list ((U -> U) * (U -> U))) (u : U) : U :=
  fold_right (fun ba u => snd ba u) u bas.

(** ** Middleware with a step at each stage *)

(** What a middleware does when: a step on the heap when its constructor is
    called, another when its transform is called, and the handler the
    transform returns. *)
Record Stage : Type := mkStage {
  at_construction : U -> U;
  at_wiring : U -> U;
  handler_of : Dispatch -> Dispatch
}.

(** [next => { wiring(); return handler(next) }] *)
Definition staged_transform (s : Stage) : Transform :=
  fun next =>
    bind (call (step (at_wiring s))) (fun _ => Ret (handler_of s next)).

(** [api => { construction(); return next => ... }] *)
Definition staged (s : Stage) : Middleware :=
  fun _ =>
    bind (call (step (at_construction s))) (fun _ => Ret (staged_transform s)).

(** The heap after the constructors, called in the order of the list. *)
Definition constructed (stages : list Stage) (u : U) : U :=
  fold_left (fun u s => at_construction s u) stages u.

(** The heap after the transforms, called from the last to the first. *)
Definition wired (stages : list Stage) (u : U) : U :=
  fold_right (fun s u => at_wiring s u) u stages.

(** [next => next]: a handler that is its [next]. *)
Definition forward : Dispatch -> Dispatch := fun next => next.

(** ** The part of the heap a container works on *)

(** [view] gives the part of the heap the base container works on.  A step
    keeps it when it leaves that part as it is. *)
Definition keeps_view {V} (view : U -> V) (f : U -> U) : Prop :=
  forall u, view (f u) = view u.

(** A base [dispatch] whose result and whose effect on that part depend on
    that part only. *)
Definition reads_view_only {V} (view : U -> V) (d : BaseDispatch) : Prop :=
  forall action args u u',
    view u = view u' ->
    fst (d action args u) = fst (d action args u') /\
    view (snd (d action args u)) = view (snd (d action args u')).

(** ** Store objects *)

(** The container a constructor returns is an object, known by a reference.
    [Objects] holds the store objects made so far, a reference is a place in
    it.  An object is what the base constructor made or what the enhanced
    constructor made. *)
Inductive Object : Type :=
| BaseObject (s : Store BaseDispatch)
| EnhancedObject (s : Store Dispatch).

Definition Ref : Type := nat.

Definition Objects : Type := list Object.

(** [o.getState], [o.dispatch] and the other fields of [o]. *)
Definition field_getState (o : Object) : B State :=
  match o with
  | BaseObject s => getState s
  | EnhancedObject s => getState s
  end.

Definition field_dispatch (o : Object) : Dispatch :=
  match o with
  | BaseObject s => base_dispatch (dispatch s)
  | EnhancedObject s => dispatch s
  end.

Definition field_rest (o : Object) : Rest :=
  match o with
  | BaseObject s => rest s
  | EnhancedObject s => rest s
  end.

(** The enhancer over the world and the objects. *)
Definition MO (A : Type) : Type :=
  nat -> World -> Objects -> Out A * World * Objects.

Definition oret {A} (a : A) : MO A := fun _ w objs => (Ok a, w, objs).

Definition obind {A C} (m : MO A) (g : A -> MO C) : MO C :=
  fun fuel w objs =>
    match m fuel w objs with
    | (Ok a, w1, objs1) => g a fuel w1 objs1
    | (o, w1, objs1) => (failed o, w1, objs1)
    end.

(** Client code and assignments to the variable leave the objects alone. *)
Definition lift {A} (m : M A) : MO A := fun fuel w objs => (m fuel w, objs).

(** A new object: its reference is the next free place. *)
Definition new_object (o : Object) : MO Ref :=
  fun _ w objs => (Ok (List.length objs), w, objs ++ [o]).

(** The object behind a reference. *)
Definition read (r : Ref) : MO Object :=
  fun _ w objs =>
    match nth_error objs r with
    | Some o => (Ok o, w, objs)
    | None => (Threw (Error "Cannot read properties of undefined"), w, objs)
    end.

Notation "x <<- m ;; k" := (obind m (fun x => k))
  (at level 61, m at next level, right associativity).

(** [createStore(reducer, ...args)] returning the reference of the store it
    made. *)
Definition create (createStore : StoreCreator) (reducer : Reducer)
    (args : list Arg) : MO Ref :=
  s <<- lift (exec (call (createStore reducer args))) ;;
  new_object (BaseObject s).

(** [applyMiddleware] with the stores as objects: [store] is a reference;
    [store.getState] where the API is made, [store.dispatch] where the chain
    is composed and [...store] where the container is returned each read
    the object when the line is run; [{...store, dispatch}] makes a new
    object. *)
Definition applyMiddleware_objects (middlewares : list Middleware)
    (createStore : StoreCreator) (reducer : Reducer) (args : list Arg)
  : MO Ref :=
  store <<- create createStore reducer args ;;
  _ <<- lift (assign guard) ;;
  o1 <<- read store ;;
  let middlewareAPI :=
    {| api_getState := field_getState o1;
       api_dispatch := fun action args => CallCell action args Ret |} in
  chain <<- lift (exec (map_prog (fun middleware : Middleware =>
                                    middleware middlewareAPI)
                                 middlewares)) ;;
  o2 <<- read store ;;
  composed <<- lift (exec (compose chain (field_dispatch o2))) ;;
  _ <<- lift (assign composed) ;;
  o3 <<- read store ;;
  new_object (EnhancedObject {| getState := field_getState o3;
                                dispatch := composed;
                                rest := field_rest o3 |}).

(** [objs[r] = o] for a reference in use; the objects are as they were
    otherwise. *)
Fixpoint update (r : Ref) (o : Object) (objs : Objects) : Objects :=
  match objs, r with
  | [], _ => []
  | _ :: more, O => o :: more
  | x :: more, S r' => x :: update r' o more
  end.

(** [store.dispatch = d]: an assignment to the field of an object.  The
    enhancer has no such line. *)
Definition set_dispatch (r : Ref) (d : Dispatch) : MO unit :=
  fun _ w objs =>
    match nth_error objs r with
    | Some o =>
        (Ok tt, w,
         update r (EnhancedObject {| getState := field_getState o;
                                     dispatch := d;
                                     rest := field_rest o |}) objs)
    | None =>
        (Threw (Error "Cannot set properties of undefined"), w, objs)
    end.

(** For contrast, and not the code of the source: an enhancer that ends with
    [store.dispatch = dispatch; return store], which patches the container
    of the base constructor in place. *)
Definition applyMiddleware_patching (middlewares : list Middleware)
    (createStore : StoreCreator) (reducer : Reducer) (args : list Arg)
  : MO Ref :=
  store <<- create createStore reducer args ;;
  _ <<- lift (assign guard) ;;
  o1 <<- read store ;;
  let middlewareAPI :=
    {| api_getState := field_getState o1;
       api_dispatch := fun action args => CallCell action args Ret |} in
  chain <<- lift (exec (map_prog (fun middleware : Middleware =>
                                    middleware middlewareAPI)
                                 middlewares)) ;;
  o2 <<- read store ;;
  composed <<- lift (exec (compose chain (field_dispatch o2))) ;;
  _ <<- lift (assign composed) ;;
  _ <<- set_dispatch store composed ;;
  oret store.

End Redux.

Arguments Ret {Action Arg Res U A} a.
Arguments Throw {Action Arg Res U A} e.
Arguments call {Action Arg Res U X} f.
Arguments guard {Action Arg Res U} _ _.
Arguments after {Action Arg Res U X} a b _.
Arguments pure_transform {Action Arg Res U} h _.
Arguments pure_middleware {State Action Arg Res U} h _.
Arguments staged {State Action Arg Res U} s _.
Arguments staged_transform {Action Arg Res U} s _.
Arguments forward {Action Arg Res U} next.

(** * A counter behind the enhancer

    The container of the examples: its state is a number, an action carries
    an [amount], and the state-transition function adds it.  The heap holds
    the container's state and a log that middleware write to. *)

Module Counter.

Open Scope Z_scope.

Record Action : Type := mkAction { type : string; amount : Z }.

Record Heap : Type := mkHeap { state : Z; log : list string }.

Definition Reducer : Type := Z -> Action -> Z.

Abbreviation Handler := (Dispatch Action Z Action Heap).
Abbreviation Mw := (Middleware Z Action Z Action Heap).
Abbreviation Api := (MiddlewareAPI Z Action Z Action Heap).
Abbreviation BaseStore :=
  (Store Z unit Heap (BaseDispatch Action Z Action Heap)).
Abbreviation Creator := (StoreCreator Z Action Z Action Reducer unit Heap).
Abbreviation Wld := (World Action Z Action Heap).

(** [(state, action) => state + action.amount] *)
Definition reducer : Reducer := fun st action => st + amount action.

(** Modelled from the spec: a base container ([createStore] is not among the
    sources).  [getState] reads the state without changing it; [dispatch]
    applies the state-transition function and returns the action. *)
Definition counter_store (reducer : Reducer) : BaseStore :=
  {| getState := fun u => (Ok (state u), u);
     dispatch := fun action _ u =>
       (Ok action, mkHeap (reducer (state u) action) (log u));
     rest := tt |}.

(** Modelled from the spec: the base constructor, [(transitionFn,
    initialState?, ...extra) -> Container]; without an initial state the
    counter starts at zero. *)
Definition createStore : Creator :=
  fun reducer args u =>
    (Ok (counter_store reducer), mkHeap (hd 0 args) (log u)).

(** A world before any construction: the variable is not declared yet. *)
Definition start (u : Heap) : Wld :=
  mkWorld (fun _ _ => Throw (Error "dispatch is not defined")) u [].

Definition say (line : string) (u : Heap) : Heap :=
  mkHeap (state u) (log u ++ [line]).

Definition said (lines : list string) (u : Heap) : Heap :=
  mkHeap (state u) (log u ++ lines).

Definition before (label : string) : string := (label ++ "-before")%string.
Definition after_ (label : string) : string := (label ++ "-after")%string.

(** A middleware that appends its label to the log before and after it calls
    [next]. *)
Definition logger (label : string) : Mw :=
  pure_middleware (around (say (before label)) (say (after_ label))).

Definition marks (label : string) : (Heap -> Heap) * (Heap -> Heap) :=
  (say (before label), say (after_ label)).

Definition add (n : Z) : Action := mkAction "add" n.

Definition w0 : Wld := start (mkHeap 0 []).

(** [api => next => next] *)
Definition pass : Mw := pure_middleware (fun next => next).

(** A constructor that writes [label] to the log when it is called. *)
Definition announcer (label : string) : Mw :=
  fun api => bind (call (step (say label))) (fun _ => pass api).

(** A constructor that throws. *)
Definition failing : Mw := fun _ => Throw (Error "boom").

(** A constructor that calls [api.dispatch] and lets the error go. *)
Definition rash : Mw :=
  fun api => bind (api_dispatch api (add 1) []) (fun _ => pass api).

(** A constructor that calls [api.dispatch] inside [try]/[catch]. *)
Definition cautious : Mw :=
  fun api =>
    TryCatch (api_dispatch api (add 1) []) (fun _ => Ret (add 0))
             (fun _ => pass api).

(** A handler that returns the action without calling [next] when the amount
    is negative. *)
Definition refuse_negative (next : Handler) : Handler :=
  fun action args =>
    if amount action <? 0 then Ret action else next action args.

(** A handler that, for an action of type [Y], first dispatches an action of
    type [X] through [api.dispatch], then calls [next]. *)
Definition again (api : Api) (next : Handler) : Handler :=
  fun action args =>
    if String.eqb (type action) "Y"
    then bind (api_dispatch api (mkAction "X" (amount action)) args)
              (fun _ => next action args)
    else next action args.

Definition reentrant : Mw := fun api => Ret (pure_transform (again api)).

(** The container of a construction that returned. *)
Definition container (r : Out (Store Z unit Heap Handler) * Wld)
  : Store Z unit Heap Handler :=
  match fst r with
  | Ok s => s
  | _ => {| getState := getState (counter_store reducer);
            dispatch := guard;
            rest := tt |}
  end.

Definition built_ABC :=
  applyMiddleware (map logger ["A"; "B"; "C"]%string) createStore reducer [5]
                  2%nat w0.

Definition built_reentrant :=
  applyMiddleware [logger "A"; reentrant; logger "C"] createStore reducer [0]
                  2%nat w0.

Definition built_refusing :=
  applyMiddleware [logger "A"; pure_middleware refuse_negative; logger "C"]
                  createStore reducer [0] 2%nat w0.

Definition built_announced :=
  applyMiddleware [announcer "one"; announcer "two"; announcer "three"]
                  createStore reducer [0] 2%nat w0.

(** One call of [dispatch] on the container of [r], by a caller. *)
Definition dispatched (r : Out (Store Z unit Heap Handler) * Wld)
    (fuel : nat) (action : Action) : Out Action * Heap :=
  let (o, w) := run fuel (dispatch (container r) action []) (snd r) in
  (o, user w).

(** A base constructor that throws. *)
Definition broken_createStore : Creator :=
  fun _ _ u => (Threw (Error "no store"), u).

(** A middleware whose transform throws. *)
Definition bad_wiring : Mw :=
  fun _ => Ret (fun _ => Throw (Error "bad transform")).

(** A middleware whose transform calls [api.dispatch] before it returns its
    handler. *)
Definition eager : Mw :=
  fun api =>
    Ret (fun next => bind (api_dispatch api (add 1) []) (fun _ => Ret next)).

(** A middleware that writes to the log at each stage and forwards. *)
Definition stage_of (label : string) : Stage Action Z Action Heap :=
  mkStage (say ("construct-" ++ label)%string)
          (say ("wire-" ++ label)%string)
          forward.

End Counter.

(** * Facts

    The types of the container are fixed again; the definitions above are
    used at these types. *)

Section Facts.

Context {State Action Arg Res Reducer Rest U : Type}.

Local Abbreviation B := (B U).
Local Abbreviation prog := (prog Action Arg Res U).
Local Abbreviation Dispatch := (Dispatch Action Arg Res U).
Local Abbreviation BaseDispatch := (BaseDispatch Action Arg Res U).
Local Abbreviation Transform := (Transform Action Arg Res U).
Local Abbreviation MiddlewareAPI := (MiddlewareAPI State Action Arg Res U).
Local Abbreviation Middleware := (Middleware State Action Arg Res U).
Local Abbreviation StoreCreator :=
  (StoreCreator State Action Arg Res Reducer Rest U).
Local Abbreviation World := (World Action Arg Res U).
Local Abbreviation Stage := (Stage Action Arg Res U).
Local Abbreviation Object := (Object State Action Arg Res Rest U).
Local Abbreviation Objects := (Objects State Action Arg Res Rest U).

Implicit Types (w : World) (store : Store State Rest U BaseDispatch)
  (api : MiddlewareAPI) (mws pre post : list Middleware)
  (chain : list Transform) (createStore : StoreCreator).

(** Induction on middleware code, with the names the proofs below use. *)
Ltac prog_induction p :=
  induction p as [A a | A e | A X f k IH | A X body IHb handler IHh k IH
                 | A action args k IH].

(** ** Equations of [run] *)

Lemma run_Ret fuel A (a : A) w : run fuel (Ret a) w = (Ok a, w).
Proof. destruct fuel; reflexivity. Qed.

Lemma run_Throw fuel A e w : run fuel (Throw e : prog A) w = (Threw e, w).
Proof. destruct fuel; reflexivity. Qed.

Lemma run_Op fuel A X (f : B X) (k : X -> prog A) w :
  run fuel (Op f k) w =
  match f (user w) with
  | (Ok x, u) => run fuel (k x) (set_user w u)
  | (o, u) => (failed o, set_user w u)
  end.
Proof. destruct fuel; reflexivity. Qed.

Lemma run_TryCatch fuel A X (body : prog X) handler (k : X -> prog A) w :
  run fuel (TryCatch body handler k) w =
  match run fuel body w with
  | (Ok x, w1) => run fuel (k x) w1
  | (Threw e, w1) =>
      match run fuel (handler e) w1 with
      | (Ok x, w2) => run fuel (k x) w2
      | (o, w2) => (failed o, w2)
      end
  | (Diverge, w1) => (Diverge, w1)
  end.
Proof. destruct fuel; reflexivity. Qed.

Lemma run_CallCell_O A action args (k : Res -> prog A) w :
  run 0 (CallCell action args k) w = (Diverge, w).
Proof. reflexivity. Qed.

Lemma run_CallCell_S fuel A action args (k : Res -> prog A) w :
  run (S fuel) (CallCell action args k) w =
  match run fuel (cell w action args) (note_call w action args) with
  | (Ok r, w1) => run (S fuel) (k r) w1
  | (o, w1) => (failed o, w1)
  end.
Proof. reflexivity. Qed.

Lemma run_bind fuel A C (p : prog A) (g : A -> prog C) w :
  run fuel (bind p g) w =
  match run fuel p w with
  | (Ok a, w1) => run fuel (g a) w1
  | (o, w1) => (failed o, w1)
  end.
Proof.
  revert C g w.
  prog_induction p; intros C g w; cbn [bind].
  - now rewrite run_Ret.
  - now rewrite !run_Throw.
  - rewrite !run_Op. destruct (f (user w)) as [[x | e |] u]; auto.
  - rewrite !run_TryCatch.
    destruct (run fuel body w) as [[x | e |] w1]; auto.
    destruct (run fuel (handler e) w1) as [[x | e' |] w2]; auto.
  - destruct fuel as [| n]; [reflexivity |].
    rewrite !run_CallCell_S.
    destruct (run n (cell w action args) (note_call w action args))
      as [[r | e |] w1]; auto.
Qed.

Lemma run_call fuel X (f : B X) w :
  run fuel (call f) w = (fst (f (user w)), set_user w (snd (f (user w)))).
Proof.
  unfold call. rewrite run_Op.
  destruct (f (user w)) as [[x | e |] u]; cbn; auto using run_Ret.
Qed.

(** ** Invariants of [run] *)

(** Client code never assigns the variable. *)
Lemma run_cell fuel : forall A (p : prog A) w,
  cell (snd (run fuel p w)) = cell w.
Proof.
  induction fuel as [| n IHn];
    (prog_induction p; intros w).
  1, 6: now rewrite run_Ret.
  1, 5: now rewrite run_Throw.
  1, 4: rewrite run_Op; destruct (f (user w)) as [[x | e |] u]; cbn [snd]; auto;
        now rewrite IH.
  1, 3: rewrite run_TryCatch; specialize (IHb w);
        destruct (run _ body w) as [[x | e |] w1];
        cbn [snd] in *; auto; [now rewrite IH |];
        specialize (IHh e w1);
        destruct (run _ (handler e) w1) as [[x | e' |] w2];
        cbn [snd] in *; try congruence; now rewrite IH.
  - reflexivity.
  - rewrite run_CallCell_S.
    specialize (IHn _ (cell w action args) (note_call w action args)).
    destruct (run n (cell w action args) (note_call w action args))
      as [[r | e |] w1]; cbn [snd] in *; auto.
    now rewrite IH.
Qed.

(** The field [calls] is ghost: a run from a world with an older record of
    calls is the same run, with that record under the new calls. *)
Lemma run_calls_ghost fuel : forall A (p : prog A) w older,
  run fuel p (with_calls w older)
  = (fst (run fuel p w), with_calls (snd (run fuel p w)) older).
Proof.
  induction fuel as [| n IHn];
    (prog_induction p; intros w older).
  1, 6: now rewrite !run_Ret.
  1, 5: now rewrite !run_Throw.
  1, 4: rewrite !run_Op; cbn [with_calls user];
        destruct (f (user w)) as [[x | e |] u]; auto;
        apply (IH x (set_user w u) older).
  1, 3: rewrite !run_TryCatch, IHb;
        destruct (run _ body w) as [[x | e |] w1]; cbn [fst snd]; auto;
        rewrite IHh;
        destruct (run _ (handler e) w1) as [[x | e' |] w2]; cbn [fst snd];
        auto.
  - reflexivity.
  - rewrite !run_CallCell_S.
    change (note_call (with_calls w older) action args)
      with (with_calls (note_call w action args) older).
    cbn [with_calls cell]. rewrite IHn.
    destruct (run n (cell w action args) (note_call w action args))
      as [[r | e |] w1]; cbn [fst snd]; auto.
Qed.

(** Runs from worlds that differ in the ghost field differ in it only. *)
Lemma run_same_but_calls fuel A (p : prog A) w w' :
  same_but_calls w w' ->
  fst (run fuel p w) = fst (run fuel p w') /\
  same_but_calls (snd (run fuel p w)) (snd (run fuel p w')).
Proof.
  destruct w as [c u l], w' as [c' u' l']. intros [Hc Hu]. cbn in Hc, Hu.
  subst c' u'.
  change (mkWorld c u l) with (with_calls (mkWorld c u []) l).
  change (mkWorld c u l') with (with_calls (mkWorld c u []) l').
  rewrite !run_calls_ghost. cbn [fst snd]. now repeat split.
Qed.

(** A run that ends, by a return or by a throw, ends alike with more fuel. *)
Lemma run_more_fuel fuel : forall A (p : prog A) w o w',
  run fuel p w = (o, w') -> o <> Diverge -> run (S fuel) p w = (o, w').
Proof.
  induction fuel as [| n IHn];
    (prog_induction p; intros w o w' H Ho).
  1, 6: now rewrite run_Ret in *.
  1, 5: now rewrite run_Throw in *.
  1, 4: rewrite run_Op in *; destruct (f (user w)) as [[x | e |] u]; auto.
  1, 3: rewrite run_TryCatch in *;
        destruct (run _ body w) as [[x | e |] w1] eqn:Eb;
        [ rewrite (IHb _ _ _ Eb ltac:(discriminate)); auto
        | rewrite (IHb _ _ _ Eb ltac:(discriminate));
          destruct (run _ (handler e) w1) as [[x | e' |] w2] eqn:Eh;
          [ rewrite (IHh _ _ _ _ Eh ltac:(discriminate)); auto
          | rewrite (IHh _ _ _ _ Eh ltac:(discriminate)); auto
          | injection H as <- _; congruence ]
        | injection H as <- _; congruence ].
  - rewrite run_CallCell_O in H. injection H as <- _. congruence.
  - rewrite run_CallCell_S in *.
    destruct (run n (cell w action args) _) as [[r | e |] w1] eqn:Ec.
    + rewrite (IHn _ _ _ _ _ Ec ltac:(discriminate)). auto.
    + now rewrite (IHn _ _ _ _ _ Ec ltac:(discriminate)).
    + injection H as <- _. cbn in Ho. congruence.
Qed.

Lemma run_enough_fuel fuel A (p : prog A) w o w' :
  run fuel p w = (o, w') -> o <> Diverge ->
  forall more, run (more + fuel) p w = (o, w').
Proof.
  intros H Ho more. induction more as [| m IH]; [exact H |].
  now apply run_more_fuel.
Qed.

(** ** Programs that run alike *)

Lemma same_runs_refl A (p : prog A) : same_runs p p.
Proof. now intros fuel w. Qed.

Lemma same_runs_bind A C (p q : prog A) (g : A -> prog C) :
  same_runs p q -> same_runs (bind p g) (bind q g).
Proof. intros H fuel w. now rewrite !run_bind, H. Qed.

Lemma bind_assoc A C D (p : prog A) (g : A -> prog C) (h : C -> prog D) :
  same_runs (bind (bind p g) h) (bind p (fun a => bind (g a) h)).
Proof.
  intros fuel w. rewrite !run_bind.
  destruct (run fuel p w) as [[a | e |] w1]; auto.
  now rewrite run_bind.
Qed.

(** ** [compose] *)

Section Compose.

Variable X : Type.
Implicit Types (f g : X -> prog X) (x : X) (funcs more : list (X -> prog X)).

Lemma compose_nil x : compose [] x = (Ret x : prog X).
Proof. reflexivity. Qed.

Lemma compose_reduce f more :
  compose (f :: more) = fold_left after more f.
Proof. now destruct more. Qed.

Lemma fold_left_after more : forall f g x,
  same_runs (fold_left after more (after f g) x)
            (bind (fold_left after more g x) f).
Proof.
  induction more as [| h more IH]; intros f g x.
  - apply same_runs_refl.
  - cbn [fold_left]. intros fuel w.
    rewrite (IH (after f g) h x fuel w).
    rewrite (same_runs_bind f (IH g h x) fuel w).
    now rewrite (bind_assoc (fold_left after more h x) g f fuel w).
Qed.

(** The first function is the outermost: it is applied last, to what the
    others give. *)
Lemma compose_cons f funcs x :
  same_runs (compose (f :: funcs) x) (bind (compose funcs x) f).
Proof.
  destruct funcs as [| g more].
  - apply same_runs_refl.
  - rewrite (compose_reduce g more). cbn [compose fold_left].
    destruct more as [| h more']; [apply same_runs_refl |].
    apply (fold_left_after (h :: more') f g x).
Qed.

Lemma compose_app funcs1 : forall funcs2 x,
  same_runs (compose (funcs1 ++ funcs2) x)
            (bind (compose funcs2 x) (compose funcs1)).
Proof.
  induction funcs1 as [| f funcs1 IH]; intros funcs2 x.
  - intros fuel w. cbn [app]. rewrite run_bind.
    destruct (run fuel (compose funcs2 x) w) as [[y | e |] w1]; auto.
    cbn [compose]. now rewrite run_Ret.
  - intros fuel w. cbn [app].
    rewrite (compose_cons f (funcs1 ++ funcs2) x fuel w).
    rewrite run_bind, (IH funcs2 x fuel w), !run_bind.
    destruct (run fuel (compose funcs2 x) w) as [[y | e |] w1]; auto.
    rewrite (compose_cons f funcs1 y fuel w1). now rewrite run_bind.
Qed.

End Compose.

(** ** The steps of [applyMiddleware] *)

Lemma applyMiddleware_steps (middlewares : list Middleware)
    (createStore : StoreCreator) reducer args fuel w :
  applyMiddleware middlewares createStore reducer args fuel w =
  match createStore reducer args (user w) with
  | (Ok store, u1) =>
      match run fuel (instantiate (middlewareAPI store) middlewares)
                (guarded w u1) with
      | (Ok chain, w2) =>
          match run fuel (compose chain (base_dispatch (dispatch store))) w2
          with
          | (Ok composed, w3) =>
              (Ok {| getState := getState store;
                     dispatch := composed;
                     rest := rest store |}, set_cell w3 composed)
          | (o, w3) => (failed o, w3)
          end
      | (o, w2) => (failed o, w2)
      end
  | (o, u1) => (failed o, set_user w u1)
  end.
Proof.
  unfold applyMiddleware, mbind, exec, assign, ret, guarded.
  rewrite run_call.
  destruct (createStore reducer args (user w)) as [[store | e |] u1];
    cbn [fst snd]; reflexivity.
Qed.

(** ** Instantiating the middleware *)

Lemma run_map_prog_cons fuel X Y (f : X -> prog Y) x xs w :
  run fuel (map_prog f (x :: xs)) w =
  match run fuel (f x) w with
  | (Ok y, w1) =>
      match run fuel (map_prog f xs) w1 with
      | (Ok ys, w2) => (Ok (y :: ys), w2)
      | (o, w2) => (failed o, w2)
      end
  | (o, w1) => (failed o, w1)
  end.
Proof.
  cbn [map_prog]. rewrite run_bind.
  destruct (run fuel (f x) w) as [[y | e |] w1]; auto.
  rewrite run_bind.
  destruct (run fuel (map_prog f xs) w1) as [[ys | e |] w2]; auto.
  now rewrite run_Ret.
Qed.

Lemma run_instantiate_nil api fuel w :
  run fuel (instantiate api []) w = (Ok [], w).
Proof. apply run_Ret. Qed.

Lemma run_instantiate_cons api fuel mw mws w :
  run fuel (instantiate api (mw :: mws)) w =
  match run fuel (mw api) w with
  | (Ok t, w1) =>
      match run fuel (instantiate api mws) w1 with
      | (Ok ts, w2) => (Ok (t :: ts), w2)
      | (o, w2) => (failed o, w2)
      end
  | (o, w1) => (failed o, w1)
  end.
Proof. apply run_map_prog_cons. Qed.

Lemma run_instantiate_ok api fuel mws : forall w chain w2,
  run fuel (instantiate api mws) w = (Ok chain, w2)
  <-> instantiated api fuel mws w chain w2.
Proof.
  induction mws as [| mw mws IH]; intros w chain w2.
  - rewrite run_instantiate_nil. split.
    + intros H. injection H as <- <-. constructor.
    + intros H. now inversion H.
  - rewrite run_instantiate_cons. split.
    + destruct (run fuel (mw api) w) as [[t | e |] w1] eqn:E1;
        try discriminate.
      destruct (run fuel (instantiate _ mws) w1) as [[ts | e |] w3] eqn:E2;
        try discriminate.
      intros H. injection H as <- <-.
      econstructor; [exact E1 | now apply IH].
    + intros H. inversion H; subst.
      match goal with
      | E1 : run fuel (mw api) w = _, Hrest : instantiated _ _ mws _ _ _ |- _ =>
          rewrite E1; apply IH in Hrest; now rewrite Hrest
      end.
Qed.

Lemma instantiated_length api fuel mws w chain w2 :
  instantiated api fuel mws w chain w2 ->
  List.length chain = List.length mws.
Proof. induction 1; cbn; auto. Qed.

Lemma instantiated_cell api fuel mws w chain w2 :
  instantiated api fuel mws w chain w2 -> cell w2 = cell w.
Proof.
  induction 1 as [| mw mws t chain w w1 w2 Hrun _ IH]; auto.
  rewrite IH. replace w1 with (snd (run fuel (mw api) w)) by now rewrite Hrun.
  apply run_cell.
Qed.

(** The map is abandoned at the first constructor that does not return. *)
Lemma run_instantiate_abandoned api fuel pre :
  forall w chain w2 (mw : Middleware) (post : list Middleware) o w3,
  instantiated api fuel pre w chain w2 ->
  run fuel (mw api) w2 = (o, w3) -> returned o = false ->
  run fuel (instantiate api (pre ++ mw :: post)) w
  = (failed o, w3).
Proof.
  induction pre as [| m pre IH]; intros w chain w2 mw post o w3 Hpre Hmw Ho.
  - inversion Hpre; subst. cbn [app]. rewrite run_instantiate_cons, Hmw.
    now destruct o.
  - inversion Hpre; subst. cbn [app]. rewrite run_instantiate_cons.
    match goal with
    | E1 : run fuel (m api) w = _, Hrest : instantiated _ _ pre _ _ _ |- _ =>
        rewrite E1, (IH _ _ _ _ post _ _ Hrest Hmw Ho); now destruct o
    end.
Qed.

(** The constructors of a list in two parts: those of the first part, then
    those of the second from the world the first part left. *)
Lemma run_instantiate_app api fuel (pre post : list Middleware) : forall w,
  run fuel (instantiate api (pre ++ post)) w =
  match run fuel (instantiate api pre) w with
  | (Ok ts1, w1) =>
      match run fuel (instantiate api post) w1 with
      | (Ok ts2, w2) => (Ok (ts1 ++ ts2), w2)
      | (o, w2) => (failed o, w2)
      end
  | (o, w1) => (failed o, w1)
  end.
Proof.
  induction pre as [| m pre IH]; intros w.
  - cbn [app]. rewrite run_instantiate_nil.
    now destruct (run fuel (instantiate api post) w) as [[ts2 | e |] w2].
  - cbn [app]. rewrite !run_instantiate_cons.
    destruct (run fuel (m api) w) as [[t | e |] w1]; auto.
    rewrite IH.
    destruct (run fuel (instantiate api pre) w1) as [[ts1 | e |] w2]; auto.
    now destruct (run fuel (instantiate api post) w2) as [[ts2 | e |] w3].
Qed.

(** What a construction that returns a container went through. *)
Lemma applyMiddleware_returns (mws : list Middleware)
    (createStore : StoreCreator) reducer args fuel w s' w' :
  applyMiddleware mws createStore reducer args fuel w = (Ok s', w') ->
  exists store u1 chain w2 w3,
    createStore reducer args (user w) = (Ok store, u1) /\
    instantiated (middlewareAPI store) fuel mws (guarded w u1) chain w2 /\
    run fuel (compose chain (base_dispatch (dispatch store))) w2
      = (Ok (dispatch s'), w3) /\
    s' = {| getState := getState store;
            dispatch := dispatch s';
            rest := rest store |} /\
    w' = set_cell w3 (dispatch s').
Proof.
  rewrite applyMiddleware_steps.
  destruct (createStore reducer args (user w)) as [[store | e |] u1];
    try discriminate.
  destruct (run fuel (instantiate _ mws) _) as [[chain | e |] w2] eqn:E1;
    try discriminate.
  destruct (run fuel (compose chain _) w2) as [[composed | e |] w3] eqn:E2;
    try discriminate.
  intros H. injection H as <- <-.
  exists store, u1, chain, w2, w3. cbn [dispatch].
  repeat split; auto. now apply run_instantiate_ok.
Qed.

(** ** What the enhanced constructor returns *)


(** C5. Once the base constructor has returned [store], the enhanced
    constructor calls every middleware constructor once, in the order
    supplied, each with the one [middlewareAPI] built from [store], each from
    the world the one before left.  A construction that returns went through
    exactly that: it has as many transforms as there are constructors, and
    the container and the world it returns are those of composing these
    transforms from the world the last constructor left.  And that pass,
    wherever it ends, is all the enhanced constructor does with the
    constructors: what it returns is fixed by the transforms and the world
    of this one pass, so none is skipped and none is called again. *)
Theorem constructors_once_in_order (mws : list Middleware)
    (createStore : StoreCreator) reducer args fuel w store u1 :
  createStore reducer args (user w) = (Ok store, u1) ->
  (forall s' w',
     applyMiddleware mws createStore reducer args fuel w = (Ok s', w') ->
     exists chain w2 w3,
       instantiated (middlewareAPI store) fuel mws (guarded w u1) chain w2 /\
       List.length chain = List.length mws /\
       run fuel (compose chain (base_dispatch (dispatch store))) w2
       = (Ok (dispatch s'), w3) /\
       w' = set_cell w3 (dispatch s')) /\
  (forall chain w2,
     instantiated (middlewareAPI store) fuel mws (guarded w u1) chain w2 ->
     applyMiddleware mws createStore reducer args fuel w
     = match run fuel (compose chain (base_dispatch (dispatch store))) w2
       with
       | (Ok composed, w3) =>
           (Ok {| getState := getState store;
                  dispatch := composed;
                  rest := rest store |}, set_cell w3 composed)
       | (o, w3) => (failed o, w3)
       end).
Proof.
  intros Hcs. split.
  - intros s' w' H.
    destruct (applyMiddleware_returns _ _ _ _ _ _ H)
      as (store0 & u0 & chain & w2 & w3 & Hcs0 & Hinst & Hcomp & _ & Hw).
    rewrite Hcs in Hcs0. injection Hcs0 as <- <-.
    exists chain, w2, w3. eauto using instantiated_length.
  - intros chain w2 Hinst. apply run_instantiate_ok in Hinst.
    now rewrite applyMiddleware_steps, Hcs, Hinst.
Qed.

(** C8. When a middleware constructor throws, the enhanced constructor throws
    the same error from the world the constructor left: no container is
    returned and the constructors after it, whatever they are, are not
    called. *)
Theorem constructor_error_propagates (pre : list Middleware) (mw : Middleware)
    (createStore : StoreCreator) reducer args fuel w store u1 chain w2 e w3 :
  createStore reducer args (user w) = (Ok store, u1) ->
  instantiated (middlewareAPI store) fuel pre (guarded w u1) chain w2 ->
  run fuel (mw (middlewareAPI store)) w2 = (Threw e, w3) ->
  forall post : list Middleware,
    applyMiddleware (pre ++ mw :: post) createStore reducer args fuel w
    = (Threw e, w3).
Proof.
  intros Hcs Hpre Hmw post.
  rewrite applyMiddleware_steps, Hcs.
  now rewrite (@run_instantiate_abandoned _ _ _ _ _ _ mw post _ _
                 Hpre Hmw eq_refl).
Qed.

(** A new object is found behind its reference. *)
Lemma nth_error_new (objs : Objects) (o : Object) :
  nth_error (objs ++ [o]) (List.length objs) = Some o.
Proof.
  rewrite nth_error_app2 by auto. now rewrite Nat.sub_diag.
Qed.

(** With the stores as objects the enhanced constructor does what it does
    with the stores as values; the base constructor's object and then the
    returned container are added to the objects. *)
Lemma applyMiddleware_objects_steps (mws : list Middleware)
    (createStore : StoreCreator) reducer args fuel w (objs : Objects) :
  applyMiddleware_objects mws createStore reducer args fuel w objs =
  match createStore reducer args (user w) with
  | (Ok s, _) =>
      match applyMiddleware mws createStore reducer args fuel w with
      | (Ok s', w') =>
          (Ok (S (List.length objs)), w',
           (objs ++ [BaseObject s]) ++ [EnhancedObject s'])
      | (o, w') => (failed o, w', objs ++ [BaseObject s])
      end
  | (o, u1) => (failed o, set_user w u1, objs)
  end.
Proof.
  rewrite applyMiddleware_steps.
  unfold applyMiddleware_objects, create, obind, lift, new_object, read,
    exec, assign.
  rewrite run_call.
  destruct (createStore reducer args (user w)) as [[s | e |] u1];
    cbn [fst snd]; auto.
  rewrite !nth_error_new. cbn [field_getState field_dispatch field_rest].
  change (instantiate (middlewareAPI s) mws)
    with (map_prog (fun middleware : Middleware =>
                      middleware (middlewareAPI s)) mws).
  unfold middlewareAPI, guarded.
  destruct (run fuel (map_prog _ mws) _) as [[chain | e |] w2]; auto.
  destruct (run fuel (compose chain _) w2) as [[composed | e |] w3]; auto.
  rewrite length_app. cbn [List.length]. now rewrite Nat.add_1_r.
Qed.

(** C10. The enhancer leaves the object of the base container as the base
    constructor made it, whether the construction returns or not: behind the
    reference the base constructor returned there still is the base store,
    its [dispatch] the original one, and the objects made before are as they
    were.  The container returned is another object, and the composed
    function is its [dispatch] only.  The last transform of the chain is
    applied to the base [dispatch] itself, which therefore is the innermost
    [next]. *)
Theorem base_store_untouched (mws : list Middleware)
    (createStore : StoreCreator) reducer args fuel w (objs : Objects) s u1 :
  createStore reducer args (user w) = (Ok s, u1) ->
  let store : Ref := List.length objs in
  forall r w' objs',
    applyMiddleware_objects mws createStore reducer args fuel w objs
    = (r, w', objs') ->
    nth_error objs' store = Some (BaseObject s) /\
    (forall k, k < store -> nth_error objs' k = nth_error objs k) /\
    (returned r = false ->
     objs' = objs ++ [BaseObject s] /\
     applyMiddleware mws createStore reducer args fuel w = (failed r, w')) /\
    (forall ref, r = Ok ref ->
       ref <> store /\
       exists s' chain w2 w3,
         objs' = (objs ++ [BaseObject s]) ++ [EnhancedObject s'] /\
         nth_error objs' ref = Some (EnhancedObject s') /\
         applyMiddleware mws createStore reducer args fuel w = (Ok s', w') /\
         instantiated (middlewareAPI s) fuel mws (guarded w u1) chain w2 /\
         run fuel (compose chain (base_dispatch (dispatch s))) w2
         = (Ok (dispatch s'), w3) /\
         (chain = [] -> dispatch s' = base_dispatch (dispatch s)) /\
         (forall ts tn, chain = ts ++ [tn] ->
            exists hn wn,
              run fuel (tn (base_dispatch (dispatch s))) w2 = (Ok hn, wn) /\
              run fuel (compose ts hn) wn = (Ok (dispatch s'), w3))).
Proof.
  intros Hcs store r w' objs' H. subst store.
  rewrite applyMiddleware_objects_steps, Hcs in H.
  destruct (applyMiddleware mws createStore reducer args fuel w)
    as [o wv] eqn:Hv.
  assert (Hold : forall (more : Objects) k, k < List.length objs ->
            nth_error (objs ++ more) k = nth_error objs k).
  { intros more k Hk. now apply nth_error_app1. }
  assert (Hlen : forall new : Object,
            List.length (objs ++ [new]) = S (List.length objs)).
  { intros new. rewrite length_app. cbn. now rewrite Nat.add_1_r. }
  destruct o as [s' | e |]; injection H as <- <- <-; cbn [failed returned].
  - split; [| split; [| split]].
    + rewrite nth_error_app1 by (rewrite Hlen; auto). apply nth_error_new.
    + intros k Hk. rewrite <- app_assoc. now apply Hold.
    + discriminate.
    + intros ref H. injection H as <-. split.
      { apply Nat.neq_succ_diag_l. }
      destruct (applyMiddleware_returns _ _ _ _ _ _ Hv)
        as (store & u1' & chain & w2 & w3 & Hcs' & Hinst & Hcomp & _ & _).
      rewrite Hcs in Hcs'. injection Hcs' as <- <-.
      exists s', chain, w2, w3.
      split; [reflexivity |]. split.
      { rewrite <- (Hlen (BaseObject s)). apply nth_error_new. }
      split; [reflexivity |]. split; [exact Hinst |].
      split; [exact Hcomp |]. split.
      * intros ->. rewrite compose_nil, run_Ret in Hcomp.
        now injection Hcomp.
      * intros ts tn ->. unfold Transform in *.
        rewrite (compose_app ts [tn] _ fuel w2), run_bind in Hcomp.
        cbn [compose] in Hcomp.
        destruct (run fuel (tn _) w2) as [[hn | e |] wn]; try discriminate.
        now exists hn, wn.
  - split; [apply nth_error_new |]. split; [intros; now apply Hold |].
    split; [auto | discriminate].
  - split; [apply nth_error_new |]. split; [intros; now apply Hold |].
    split; [auto | discriminate].
Qed.

(** C4. The variable behind [middlewareAPI.dispatch] holds the guard up to
    the assignment, and a call through it there throws the guard's error.
    When the enhanced constructor returns, the variable holds the function
    composed from the whole chain around the base [dispatch], the one the
    transform of the first middleware returned and the [dispatch] of the
    returned container.  In every world that client code reaches from
    there the variable still holds it, and a call of [middlewareAPI.dispatch],
    from a handler or from anywhere, is a call of that composed function. *)
Theorem dispatch_bound_after_construction (mws : list Middleware)
    (createStore : StoreCreator) reducer args fuel w s' w' :
  applyMiddleware mws createStore reducer args fuel w = (Ok s', w') ->
  exists store u1 chain w2 w3,
    createStore reducer args (user w) = (Ok store, u1) /\
    instantiated (middlewareAPI store) fuel mws (guarded w u1) chain w2 /\
    run fuel (compose chain (base_dispatch (dispatch store))) w2
    = (Ok (dispatch s'), w3) /\
    (chain = [] -> dispatch s' = base_dispatch (dispatch store)) /\
    (forall t1 ts, chain = t1 :: ts ->
       exists next1 wb,
         run fuel (compose ts (base_dispatch (dispatch store))) w2
         = (Ok next1, wb) /\
         run fuel (t1 next1) wb = (Ok (dispatch s'), w3)) /\
    cell w3 = guard /\
    (forall n action args',
       run (S n) (api_dispatch (middlewareAPI store) action args') w3
       = (Threw guard_error, note_call w3 action args')) /\
    w' = set_cell w3 (dispatch s') /\
    forall w'', later w' w'' ->
      cell w'' = dispatch s' /\
      forall n action args',
        run (S n) (api_dispatch (middlewareAPI store) action args') w''
        = run n (dispatch s' action args') (note_call w'' action args').
Proof.
  intros H.
  destruct (applyMiddleware_returns _ _ _ _ _ _ H)
    as (store & u1 & chain & w2 & w3 & Hcs & Hinst & Hcomp & _ & ->).
  assert (Hg2 : cell w2 = guard).
  { pose proof Hinst as Hc. apply instantiated_cell in Hc. exact Hc. }
  assert (Hg3 : cell w3 = guard).
  { replace w3 with (snd (run fuel (compose chain
                       (base_dispatch (dispatch store))) w2))
      by now rewrite Hcomp.
    now rewrite run_cell. }
  exists store, u1, chain, w2, w3.
  split; [exact Hcs |]. split; [exact Hinst |]. split; [exact Hcomp |].
  split; [| split; [| split; [exact Hg3 | split; [| split; [reflexivity |]]]]].
  - intros ->. rewrite compose_nil, run_Ret in Hcomp. now injection Hcomp.
  - intros t1 ts ->. unfold Transform in *.
    rewrite (compose_cons t1 ts _ fuel w2), run_bind in Hcomp.
    destruct (run fuel (compose ts (base_dispatch (dispatch store))) w2)
      as [[next1 | e |] wb]; try discriminate.
    now exists next1, wb.
  - intros n action args'. cbn [middlewareAPI api_dispatch].
    rewrite run_CallCell_S, Hg3. unfold guard. now rewrite run_Throw.
  - intros w'' Hlater.
    assert (Hw : cell w'' = dispatch s').
    { induction Hlater as [| A p n w1 o w2' _ IH Hrun]; [reflexivity |].
      replace w2' with (snd (run n p w1)) by now rewrite Hrun.
      now rewrite run_cell. }
    split; [exact Hw |].
    intros n action args'. cbn [middlewareAPI api_dispatch].
    rewrite run_CallCell_S, Hw.
    destruct (run n (dispatch s' action args') (note_call w'' action args'))
      as [[r | e |] wr]; auto using run_Ret.
Qed.

(** ** The guard *)

Lemma run_CallCell_guard fuel A action args (k : Res -> prog A) w :
  cell w = guard ->
  run (S fuel) (CallCell action args k) w
  = (Threw guard_error, note_call w action args).
Proof.
  intros Hw. rewrite run_CallCell_S, Hw.
  unfold guard. now rewrite run_Throw.
Qed.

(** A call of [middlewareAPI.dispatch] while the variable holds the guard
    throws the guard's error and changes neither the variable nor the heap. *)
Lemma guard_throws store fuel action args w :
  cell w = guard ->
  run (S fuel) (api_dispatch (middlewareAPI store) action args) w
  = (Threw guard_error, note_call w action args).
Proof. intros Hw. now apply run_CallCell_guard. Qed.

(** The same call inside [try]/[catch]: the run goes on from the handler. *)
Lemma run_caught_guard store fuel A action args handler
    (k : Res -> prog A) w :
  cell w = guard ->
  run (S fuel)
      (TryCatch (api_dispatch (middlewareAPI store) action args) handler k) w
  = run (S fuel) (bind (handler guard_error) k) (note_call w action args).
Proof.
  intros Hw. rewrite run_TryCatch, guard_throws by assumption.
  now rewrite run_bind.
Qed.

(** Under the guard, code without [try]/[catch] either makes no call through
    the variable or ends with the guard's error. *)
Lemma uncaught_guard fuel A (p : prog A) : forall w,
  cell w = guard -> catch_free p ->
  calls (snd (run fuel p w)) = calls w \/
  fst (run fuel p w) = Threw guard_error.
Proof.
  prog_induction p; intros w Hw Hp; cbn [catch_free] in Hp.
  - rewrite run_Ret. now left.
  - rewrite run_Throw. now left.
  - rewrite run_Op. destruct (f (user w)) as [[x | e |] u]; cbn [fst snd];
      auto. apply (IH x (set_user w u)); auto.
  - contradiction.
  - destruct fuel as [| n]; [now left |].
    rewrite run_CallCell_guard by assumption. now right.
Qed.

(** C1, amended.  While the middleware are instantiated the variable holds the
    guard, so a call of [middlewareAPI.dispatch] made then throws the guard's
    error at the call; and when the constructor that made the call has no
    [try]/[catch], the construction ends with that error: no container is
    returned, whatever constructors come after. *)
Theorem guard_call_uncaught (pre : list Middleware) (mw : Middleware)
    (createStore : StoreCreator) reducer args fuel w store u1 chain w2 :
  createStore reducer args (user w) = (Ok store, u1) ->
  instantiated (middlewareAPI store) fuel pre (guarded w u1) chain w2 ->
  catch_free (mw (middlewareAPI store)) ->
  calls (snd (run fuel (mw (middlewareAPI store)) w2)) <> calls w2 ->
  (forall A (p : prog A) n action args',
     run (S n) (api_dispatch (middlewareAPI store) action args')
         (snd (run fuel p w2))
     = (Threw guard_error, note_call (snd (run fuel p w2)) action args')) /\
  forall post : list Middleware,
    applyMiddleware (pre ++ mw :: post) createStore reducer args fuel w
    = (Threw guard_error, snd (run fuel (mw (middlewareAPI store)) w2)).
Proof.
  intros Hcs Hpre Hfree Hcalls.
  assert (Hg : cell w2 = guard) by apply (instantiated_cell Hpre).
  split.
  - intros A p n action args'. apply guard_throws. now rewrite run_cell.
  - intros post. rewrite applyMiddleware_steps, Hcs.
    destruct (uncaught_guard fuel (mw (middlewareAPI store)) w2 Hg Hfree)
      as [H | H]; [contradiction |].
    destruct (run fuel (mw (middlewareAPI store)) w2) as [o w3] eqn:Hrun.
    cbn [fst snd] in *. subst o.
    now rewrite (@run_instantiate_abandoned _ _ _ _ _ _ mw post _ _
                   Hpre Hrun eq_refl).
Qed.

(** Two lists of constructors that differ in one place, where the two
    constructors run alike under the guard but for the ghost field, are
    instantiated alike. *)
Lemma instantiate_alike api fuel (mw1 mw2 : Middleware) post pre :
  (forall w w', cell w = guard -> same_but_calls w w' ->
     fst (run fuel (mw1 api) w) = fst (run fuel (mw2 api) w') /\
     same_but_calls (snd (run fuel (mw1 api) w))
                    (snd (run fuel (mw2 api) w'))) ->
  forall w w', cell w = guard -> same_but_calls w w' ->
    fst (run fuel (instantiate api (pre ++ mw1 :: post)) w)
    = fst (run fuel (instantiate api (pre ++ mw2 :: post)) w') /\
    same_but_calls (snd (run fuel (instantiate api (pre ++ mw1 :: post)) w))
                   (snd (run fuel (instantiate api (pre ++ mw2 :: post)) w')).
Proof.
  intros Hmw.
  induction pre as [| m pre IH]; intros w w' Hg Hw; cbn [app];
    rewrite !run_instantiate_cons.
  - destruct (Hmw w w' Hg Hw) as [H1 H2].
    destruct (run fuel (mw1 api) w) as [o1 w1],
             (run fuel (mw2 api) w') as [o2 w1'].
    cbn [fst snd] in H1, H2. subst o2.
    destruct o1 as [t | e |]; cbn [fst snd]; auto.
    destruct (run_same_but_calls fuel (instantiate api post) H2) as [H3 H4].
    destruct (run fuel (instantiate api post) w1) as [o3 w3],
             (run fuel (instantiate api post) w1') as [o4 w3'].
    cbn [fst snd] in H3, H4. subst o4. now destruct o3.
  - destruct (run_same_but_calls fuel (m api) Hw) as [H1 H2].
    pose proof (run_cell fuel (m api) w) as Hc.
    destruct (run fuel (m api) w) as [o1 w1],
             (run fuel (m api) w') as [o2 w1'].
    cbn [fst snd] in H1, H2, Hc. subst o2.
    destruct o1 as [t | e |]; cbn [fst snd]; auto.
    assert (Hg1 : cell w1 = guard) by congruence.
    destruct (IH w1 w1' Hg1 H2) as [H3 H4].
    destruct (run fuel (instantiate api (pre ++ mw1 :: post)) w1) as [o3 w3],
             (run fuel (instantiate api (pre ++ mw2 :: post)) w1') as [o4 w3'].
    cbn [fst snd] in H3, H4. subst o4. now destruct o3.
Qed.

(** C9, amended.  The guard's error is raised in the guard itself and leaves
    the variable and the heap as they were.  When the constructor that made
    the call catches the error, the construction goes on as it would have
    from the handler with no call made: same result, same variable, same
    heap.  When the constructor does not catch it, the error ends the
    construction there: the constructors after it are not called and no
    container is returned. *)
Theorem guard_error_at_the_call (pre post : list Middleware)
    (handler : MiddlewareAPI -> Exn -> prog Res)
    (k : MiddlewareAPI -> Res -> prog Transform)
    action args' (createStore : StoreCreator) reducer args fuel w store u1 :
  createStore reducer args (user w) = (Ok store, u1) ->
  let caught : Middleware := fun api =>
    TryCatch (api_dispatch api action args') (handler api) (k api) in
  let handled : Middleware := fun api =>
    bind (handler api guard_error) (k api) in
  let uncaught : Middleware := fun api =>
    bind (api_dispatch api action args') (k api) in
  let construct mws :=
    applyMiddleware mws createStore reducer args (S fuel) w in
  (forall w0, cell w0 = guard ->
     run (S fuel) (api_dispatch (middlewareAPI store) action args') w0
     = (Threw guard_error, note_call w0 action args')) /\
  (fst (construct (pre ++ caught :: post))
   = fst (construct (pre ++ handled :: post)) /\
   same_but_calls (snd (construct (pre ++ caught :: post)))
                  (snd (construct (pre ++ handled :: post)))) /\
  (forall chain w2,
     instantiated (middlewareAPI store) (S fuel) pre (guarded w u1) chain w2 ->
     construct (pre ++ uncaught :: post)
     = (Threw guard_error, note_call w2 action args')).
Proof.
  intros Hcs caught handled uncaught construct. subst construct.
  split; [| split].
  - intros w0 Hw0. now apply guard_throws.
  - cbn beta. rewrite !applyMiddleware_steps, Hcs.
    destruct (@instantiate_alike (middlewareAPI store) (S fuel)
                caught handled post pre) with (w := guarded w u1)
                                              (w' := guarded w u1)
      as [H1 H2]; try now split.
    { intros w1 w1' Hg Hsame. subst caught handled. cbn beta.
      rewrite run_caught_guard by assumption.
      apply run_same_but_calls.
      destruct Hsame as [Hc Hu]. now split. }
    destruct (run (S fuel) (instantiate _ (pre ++ caught :: post)) _)
      as [o1 w2],
      (run (S fuel) (instantiate _ (pre ++ handled :: post)) _) as [o2 w2'].
    cbn [fst snd] in H1, H2. subst o2.
    destruct o1 as [chain | e |]; cbn [fst snd failed]; auto.
    destruct (run_same_but_calls (S fuel)
                (compose chain (base_dispatch (dispatch store))) H2)
      as [H3 H4].
    destruct (run (S fuel) (compose chain _) w2) as [o3 w3],
             (run (S fuel) (compose chain _) w2') as [o4 w3'].
    cbn [fst snd] in H3, H4. subst o4.
    destruct o3 as [composed | e |]; cbn [fst snd failed]; auto.
    destruct H4 as [_ Hu]. now split.
  - intros chain w2 Hpre. cbn beta. rewrite applyMiddleware_steps, Hcs.
    assert (Hg : cell w2 = guard) by apply (instantiated_cell Hpre).
    assert (Hrun : run (S fuel) (uncaught (middlewareAPI store)) w2
                   = (Threw guard_error, note_call w2 action args')).
    { subst uncaught. cbn beta.
      now rewrite run_bind, guard_throws by assumption. }
    pose proof (@run_instantiate_abandoned _ (S fuel) pre _ _ _ uncaught post
                  _ _ Hpre Hrun eq_refl) as Hab.
    unfold Middleware in *. now rewrite Hab.
Qed.

(** ** No middleware *)

Lemma run_base_dispatch fuel (d : BaseDispatch) action args w :
  run fuel (base_dispatch d action args) w
  = (fst (d action args (user w)), set_user w (snd (d action args (user w)))).
Proof. apply run_call. Qed.

Lemma session_base fuel (d : BaseDispatch) todo : forall w,
  fst (session fuel (base_dispatch d) todo w)
  = fst (base_session d todo (user w)) /\
  user (snd (session fuel (base_dispatch d) todo w))
  = snd (base_session d todo (user w)).
Proof.
  induction todo as [| [action args] todo IH]; intros w;
    cbn [session base_session].
  - auto.
  - rewrite !run_base_dispatch.
    destruct (d action args (user w)) as [o u1]. cbn [fst snd].
    specialize (IH (set_user w u1)). cbn [set_user user] in IH.
    destruct (session fuel (base_dispatch d) todo (set_user w u1)) as [os w2].
    destruct (base_session d todo u1) as [os' u2].
    cbn [fst snd] in IH. destruct IH as [H1 H2].
    destruct o; cbn [fst snd set_user user]; split; congruence.
Qed.

(** C2. With no middleware the enhanced constructor returns the base
    container with the base [dispatch] as its [dispatch]: whatever actions
    are dispatched, with whatever fuel, each call gives what the base
    [dispatch] gives and the heap goes through the same states. *)
Theorem no_middleware_is_base (createStore : StoreCreator) reducer args fuel w
    store u1 :
  createStore reducer args (user w) = (Ok store, u1) ->
  exists s' w',
    applyMiddleware [] createStore reducer args fuel w = (Ok s', w') /\
    user w' = u1 /\
    getState s' = getState store /\
    rest s' = rest store /\
    dispatch s' = base_dispatch (dispatch store) /\
    forall fuel' todo,
      fst (session fuel' (dispatch s') todo w')
      = fst (base_session (dispatch store) todo u1) /\
      user (snd (session fuel' (dispatch s') todo w'))
      = snd (base_session (dispatch store) todo u1).
Proof.
  intros Hcs. rewrite applyMiddleware_steps, Hcs.
  rewrite run_instantiate_nil, compose_nil, run_Ret.
  do 2 eexists. split; [reflexivity |]. cbn [getState rest dispatch].
  repeat split; auto.
  - apply (session_base fuel' (dispatch store) todo
             (set_cell (guarded w u1) (base_dispatch (dispatch store)))).
  - apply (session_base fuel' (dispatch store) todo
             (set_cell (guarded w u1) (base_dispatch (dispatch store)))).
Qed.

(** ** Chains of handlers *)

Lemma compose_pure hs d fuel w :
  run fuel (compose (map pure_transform hs) d) w = (Ok (nest hs d), w).
Proof.
  induction hs as [| h hs IH].
  - cbn [map]. now rewrite compose_nil, run_Ret.
  - cbn [map]. rewrite (compose_cons _ _ d fuel w), run_bind, IH.
    unfold pure_transform at 1. now rewrite run_Ret.
Qed.

Lemma instantiated_pure api fuel (hs : list (Dispatch -> Dispatch)) w :
  run fuel (instantiate api (map pure_middleware hs)) w
  = (Ok (map pure_transform hs), w).
Proof.
  induction hs as [| h hs IH].
  - cbn [map]. now rewrite run_instantiate_nil.
  - cbn [map]. rewrite run_instantiate_cons. unfold pure_middleware at 1.
    now rewrite run_Ret, IH.
Qed.

(** The construction when neither the constructors nor the transforms have
    effects: the composed function is the handlers nested in the order of the
    list, the base [dispatch] innermost. *)
Lemma applyMiddleware_pure (hs : list (Dispatch -> Dispatch))
    (createStore : StoreCreator) reducer args fuel w store u1 :
  createStore reducer args (user w) = (Ok store, u1) ->
  let composed := nest hs (base_dispatch (dispatch store)) in
  applyMiddleware (map pure_middleware hs) createStore reducer args fuel w
  = (Ok {| getState := getState store;
           dispatch := composed;
           rest := rest store |},
     set_cell (guarded w u1) composed).
Proof.
  intros Hcs composed. subst composed.
  now rewrite applyMiddleware_steps, Hcs, instantiated_pure, compose_pure.
Qed.

(** One call through nested [around] handlers: the [before] steps in the
    order of the list, then [next], then the [after] steps in the opposite
    order; a [next] that does not return leaves the [after] steps out. *)
Lemma run_around_chain bas (next : Dispatch) action args fuel : forall w,
  run fuel (nest (map (fun ba => around (fst ba) (snd ba)) bas) next
              action args) w
  = match run fuel (next action args) (set_user w (befores bas (user w))) with
    | (Ok r, w2) => (Ok r, set_user w2 (afters bas (user w2)))
    | (o, w2) => (o, w2)
    end.
Proof.
  induction bas as [| [b a] bas IH]; intros w.
  - cbn [map nest fold_right befores afters fold_left].
    destruct w as [c u l]. cbn [set_user user cell calls].
    destruct (run fuel (next action args) _) as [[r | e |] [c2 u2 l2]]; auto.
  - cbn [map nest fold_right fst snd]. unfold around at 1.
    rewrite run_bind, run_call. cbn [step fst snd]. rewrite run_bind.
    fold (nest (map (fun ba => around (fst ba) (snd ba)) bas) next).
    rewrite IH. cbn [set_user user cell calls befores afters fold_left
                     fold_right fst snd].
    fold (befores bas (b (user w))).
    destruct (run fuel (next action args) _) as [[r | e |] w2]; auto.
    rewrite run_bind, run_call. cbn [step fst snd set_user user cell calls].
    now rewrite run_Ret.
Qed.

(** C3. Middleware that each take a step on the heap before calling [next]
    and another after it, supplied in the order of [bas]: one call of the
    composed [dispatch] takes the [before] steps in the order supplied, then
    runs the base [dispatch], then takes the [after] steps in the opposite
    order, and returns what the base [dispatch] returned.  Every handler
    calls its [next] before it returns. *)
Theorem handlers_in_supplied_order (bas : list ((U -> U) * (U -> U)))
    (createStore : StoreCreator) reducer args fuel w store u1 :
  createStore reducer args (user w) = (Ok store, u1) ->
  exists s' w',
    applyMiddleware
      (map (fun ba => pure_middleware (around (fst ba) (snd ba))) bas)
      createStore reducer args fuel w
    = (Ok s', w') /\
    user w' = u1 /\
    forall fuel' action args' w'',
      run fuel' (dispatch s' action args') w''
      = match dispatch store action args' (befores bas (user w'')) with
        | (Ok r, u2) => (Ok r, set_user w'' (afters bas u2))
        | (o, u2) => (o, set_user w'' u2)
        end.
Proof.
  intros Hcs. rewrite <- (map_map (fun ba => around (fst ba) (snd ba))).
  rewrite (applyMiddleware_pure _ _ _ _ fuel _ Hcs).
  do 2 eexists. split; [reflexivity |]. split; [reflexivity |].
  intros fuel' action args' w''. cbn [dispatch].
  rewrite run_around_chain, run_base_dispatch. cbn [set_user user].
  now destruct (dispatch store action args' _) as [[r | e |] u2].
Qed.

(** ** A handler that does not call [next] *)

(** C6. Let a middleware [api => next => h api next] be supplied between
    the middleware [pre] and the middleware [post], and let its handler, for
    the call at hand, run the same whatever its [next] is: it does not call
    it.  The constructors and the transforms of [post] are called when the
    container is constructed, and the handlers of [post] around the base
    [dispatch] are wired in as that [next], and nowhere else: the [dispatch]
    of the returned container is what the transforms of [pre] make of the
    handler.  When the middleware of [pre] pass every call on between two
    steps on the heap, a call of that [dispatch] takes their [before] steps,
    runs the handler as it runs with any other [next], and takes their
    [after] steps: no handler of [post] is run and the base [dispatch],
    hence the reducer, is not.  When the handler returns [r] without a step
    of its own, the call returns [r] and the heap is changed by the steps of
    the earlier middleware only. *)
Theorem short_circuit (pre : list Middleware) (mw : Middleware)
    (h : MiddlewareAPI -> Dispatch -> Dispatch) (post : list Middleware)
    (createStore : StoreCreator) reducer args fuel w s' w' action args' :
  (forall api, mw api = Ret (pure_transform (h api))) ->
  (forall api next1 next2,
     same_runs (h api next1 action args') (h api next2 action args')) ->
  applyMiddleware (pre ++ mw :: post) createStore reducer args fuel w
  = (Ok s', w') ->
  exists store u1 outer w1 inner w2 nk wk w3,
    createStore reducer args (user w) = (Ok store, u1) /\
    instantiated (middlewareAPI store) fuel pre (guarded w u1) outer w1 /\
    instantiated (middlewareAPI store) fuel post w1 inner w2 /\
    run fuel (compose inner (base_dispatch (dispatch store))) w2
    = (Ok nk, wk) /\
    run fuel (compose outer (h (middlewareAPI store) nk)) wk
    = (Ok (dispatch s'), w3) /\
    forall bas,
      pre = map (fun ba => pure_middleware (around (fst ba) (snd ba))) bas ->
      dispatch s'
      = nest (map (fun ba => around (fst ba) (snd ba)) bas)
             (h (middlewareAPI store) nk) /\
      (forall (next' : Dispatch) fuel' w'',
         run fuel' (dispatch s' action args') w''
         = match run fuel' (h (middlewareAPI store) next' action args')
                     (set_user w'' (befores bas (user w''))) with
           | (Ok r, w2) => (Ok r, set_user w2 (afters bas (user w2)))
           | (o, w2) => (o, w2)
           end) /\
      (forall r,
         (forall next, h (middlewareAPI store) next action args' = Ret r) ->
         forall fuel' w'',
           run fuel' (dispatch s' action args') w''
           = (Ok r, set_user w'' (afters bas (befores bas (user w''))))).
Proof.
  intros Hmw Hh H.
  destruct (applyMiddleware_returns _ _ _ _ _ _ H)
    as (store & u1 & chain0 & w2 & w3 & Hcs & Hinst & Hcomp & _ & _).
  apply run_instantiate_ok in Hinst.
  rewrite run_instantiate_app in Hinst.
  destruct (run fuel (instantiate (middlewareAPI store) pre) (guarded w u1))
    as [[outer | e |] w1] eqn:Hpre; try discriminate.
  rewrite run_instantiate_cons, Hmw, run_Ret in Hinst.
  destruct (run fuel (instantiate (middlewareAPI store) post) w1)
    as [[inner | e |] wp] eqn:Hpost; try discriminate.
  injection Hinst as <- <-.
  unfold Transform in *.
  rewrite (compose_app outer (_ :: inner) _ fuel wp), run_bind in Hcomp.
  rewrite (compose_cons _ inner _ fuel wp), run_bind in Hcomp.
  destruct (run fuel (compose inner (base_dispatch (dispatch store))) wp)
    as [[nk | e |] wk] eqn:Hnk; try discriminate.
  unfold pure_transform at 1 in Hcomp. rewrite run_Ret in Hcomp.
  exists store, u1, outer, w1, inner, wp, nk, wk, w3.
  split; [exact Hcs |]. split; [now apply run_instantiate_ok |].
  split; [now apply run_instantiate_ok |].
  split; [exact Hnk |]. split; [exact Hcomp |].
  intros bas ->.
  rewrite <- (map_map (fun ba => around (fst ba) (snd ba)) pure_middleware)
    in Hpre.
  rewrite instantiated_pure in Hpre. injection Hpre as <- <-.
  fold Transform in Hcomp. rewrite compose_pure in Hcomp.
  injection Hcomp as Hd _.
  assert (Hcall : forall (next' : Dispatch) fuel' w'',
    run fuel' (dispatch s' action args') w''
    = match run fuel' (h (middlewareAPI store) next' action args')
                (set_user w'' (befores bas (user w''))) with
      | (Ok r, w2) => (Ok r, set_user w2 (afters bas (user w2)))
      | (o, w2) => (o, w2)
      end).
  { intros next' fuel' w''. rewrite <- Hd, run_around_chain.
    now rewrite (Hh (middlewareAPI store) nk next'). }
  split; [now rewrite Hd |]. split; [exact Hcall |].
  intros r Hr fuel' w''. rewrite (Hcall nk), Hr, run_Ret.
  now destruct w''.
Qed.

(** ** Failures of the construction *)

(** X1. When the base constructor does not return a store, the enhanced
    constructor ends the same way, in the heap the base constructor left:
    no middleware constructor is called, whatever the middleware are, and
    the variable is not touched. *)
Theorem base_constructor_failure (mws : list Middleware)
    (createStore : StoreCreator) reducer args fuel w o u1 :
  createStore reducer args (user w) = (o, u1) ->
  returned o = false ->
  applyMiddleware mws createStore reducer args fuel w
  = (failed o, set_user w u1).
Proof.
  intros Hcs Ho. rewrite applyMiddleware_steps, Hcs.
  now destruct o.
Qed.

(** X2. When every constructor has returned and the call that composes the
    chain around the base [dispatch] does not return (a transform throws),
    the enhanced constructor ends the same way and returns no container; the
    variable still holds the guard: it was never assigned the composed
    function. *)
Theorem transform_failure (mws : list Middleware)
    (createStore : StoreCreator) reducer args fuel w store u1 chain w2 o w3 :
  createStore reducer args (user w) = (Ok store, u1) ->
  instantiated (middlewareAPI store) fuel mws (guarded w u1) chain w2 ->
  run fuel (compose chain (base_dispatch (dispatch store))) w2 = (o, w3) ->
  returned o = false ->
  applyMiddleware mws createStore reducer args fuel w = (failed o, w3) /\
  cell w3 = guard.
Proof.
  intros Hcs Hinst Hcomp Ho. split.
  - rewrite applyMiddleware_steps, Hcs.
    apply run_instantiate_ok in Hinst. rewrite Hinst, Hcomp.
    now destruct o.
  - replace w3 with (snd (run fuel (compose chain
                      (base_dispatch (dispatch store))) w2))
      by now rewrite Hcomp.
    rewrite run_cell. apply (instantiated_cell Hinst).
Qed.

(** X3. The variable still holds the guard while the chain is composed: the
    composed function is assigned only once the call that composes has
    returned.  So a transform that calls [middlewareAPI.dispatch] when it is
    called, outside its handler, and does not catch the error, ends the
    construction with the guard's error, as a constructor does. *)
Theorem guard_while_composing (mws : list Middleware)
    (createStore : StoreCreator) reducer args fuel w store u1
    (pre post : list Transform) (t : Transform) w2 nk w3 action args'
    (k : Res -> prog Dispatch) :
  createStore reducer args (user w) = (Ok store, u1) ->
  instantiated (middlewareAPI store) (S fuel) mws (guarded w u1)
               (pre ++ t :: post) w2 ->
  run (S fuel) (compose post (base_dispatch (dispatch store))) w2
  = (Ok nk, w3) ->
  t nk = bind (api_dispatch (middlewareAPI store) action args') k ->
  (forall A (p : prog A),
     cell (snd (run (S fuel) p w2)) = guard) /\
  applyMiddleware mws createStore reducer args (S fuel) w
  = (Threw guard_error, note_call w3 action args').
Proof.
  intros Hcs Hinst Hpost Ht.
  assert (Hg2 : cell w2 = guard) by apply (instantiated_cell Hinst).
  split.
  - intros A p. now rewrite run_cell.
  - assert (Hg3 : cell w3 = guard).
    { replace w3 with (snd (run (S fuel)
                         (compose post (base_dispatch (dispatch store))) w2))
        by now rewrite Hpost.
      now rewrite run_cell. }
    rewrite applyMiddleware_steps, Hcs.
    apply run_instantiate_ok in Hinst. rewrite Hinst.
    unfold Transform in *.
    rewrite (compose_app pre (t :: post) _ (S fuel) w2), run_bind.
    rewrite (compose_cons t post _ (S fuel) w2), run_bind, Hpost, Ht.
    now rewrite run_bind, guard_throws by assumption.
Qed.

(** ** The construction and the depth of calls *)

(** Under the guard a call through the variable runs the guard and nothing
    else, so code run under the guard uses one level of such calls at
    most. *)
Lemma run_under_guard fuel A (p : prog A) : forall w,
  cell w = guard -> run (S fuel) p w = run 1 p w.
Proof.
  prog_induction p; intros w Hw.
  - now rewrite !run_Ret.
  - now rewrite !run_Throw.
  - rewrite !run_Op. destruct (f (user w)) as [[x | e |] u]; auto.
  - rewrite !run_TryCatch, IHb by assumption.
    pose proof (run_cell 1 body w) as Hc1.
    destruct (run 1 body w) as [[x | e |] w1]; cbn [snd] in Hc1; auto.
    + apply IH. congruence.
    + assert (Hw1 : cell w1 = guard) by congruence.
      rewrite IHh by assumption.
      pose proof (run_cell 1 (handler e) w1) as Hc2.
      destruct (run 1 (handler e) w1) as [[x | e' |] w2]; cbn [snd] in Hc2;
        auto.
      apply IH. congruence.
  - now rewrite !run_CallCell_guard by assumption.
Qed.

(** X4. The construction never enters a handler through
    [middlewareAPI.dispatch]: whatever the constructors and the transforms
    do, one level of calls through the variable is all the construction
    uses, and its outcome is the same at every greater depth. *)
Theorem construction_depth (mws : list Middleware)
    (createStore : StoreCreator) reducer args fuel w :
  applyMiddleware mws createStore reducer args (S fuel) w
  = applyMiddleware mws createStore reducer args 1 w.
Proof.
  rewrite !applyMiddleware_steps.
  destruct (createStore reducer args (user w)) as [[store | e |] u1]; auto.
  rewrite (run_under_guard fuel (instantiate (middlewareAPI store) mws)
             (guarded w u1) eq_refl).
  pose proof (run_cell 1 (instantiate (middlewareAPI store) mws)
                (guarded w u1)) as Hc.
  destruct (run 1 (instantiate (middlewareAPI store) mws) (guarded w u1))
    as [[chain | e |] w2]; cbn [snd] in Hc; auto.
  now rewrite (run_under_guard fuel
                 (compose chain (base_dispatch (dispatch store))) w2 Hc).
Qed.

(** ** Middleware that only forward, middleware with a step at each stage *)

Lemma nest_forward n (d : Dispatch) : nest (repeat forward n) d = d.
Proof. induction n as [| n IH]; cbn; auto. Qed.

(** X5. Any number of middleware whose handler is its [next] are not seen:
    the enhanced constructor returns the base container with the base
    [dispatch] as its [dispatch], and every session of dispatches gives what
    the base container gives. *)
Theorem forwarding_is_base n (createStore : StoreCreator) reducer args fuel w
    store u1 :
  createStore reducer args (user w) = (Ok store, u1) ->
  exists s' w',
    applyMiddleware (repeat (pure_middleware forward) n) createStore reducer
                    args fuel w = (Ok s', w') /\
    user w' = u1 /\
    dispatch s' = base_dispatch (dispatch store) /\
    cell w' = base_dispatch (dispatch store) /\
    forall fuel' todo,
      fst (session fuel' (dispatch s') todo w')
      = fst (base_session (dispatch store) todo u1) /\
      user (snd (session fuel' (dispatch s') todo w'))
      = snd (base_session (dispatch store) todo u1).
Proof.
  intros Hcs.
  replace (repeat (pure_middleware forward) n)
    with (map (@pure_middleware State Action Arg Res U) (repeat forward n))
    by (induction n as [| n IH]; cbn; congruence).
  rewrite (applyMiddleware_pure _ _ _ _ fuel _ Hcs), nest_forward.
  do 2 eexists. split; [reflexivity |]. cbn [dispatch].
  repeat split; auto.
  - apply (session_base fuel' (dispatch store) todo
             (set_cell (guarded w u1) (base_dispatch (dispatch store)))).
  - apply (session_base fuel' (dispatch store) todo
             (set_cell (guarded w u1) (base_dispatch (dispatch store)))).
Qed.

Lemma run_instantiate_staged api fuel (stages : list Stage) : forall w,
  run fuel (instantiate api (map staged stages)) w
  = (Ok (map staged_transform stages),
     set_user w (constructed stages (user w))).
Proof.
  induction stages as [| s stages IH]; intros w; cbn [map].
  - rewrite run_instantiate_nil. now destruct w.
  - rewrite run_instantiate_cons. unfold staged at 1.
    rewrite run_bind, run_call. cbn [step fst snd]. rewrite run_Ret, IH.
    reflexivity.
Qed.

Lemma run_compose_staged fuel (stages : list Stage) d : forall w,
  run fuel (compose (map staged_transform stages) d) w
  = (Ok (nest (map (fun s => handler_of s) stages) d),
     set_user w (wired stages (user w))).
Proof.
  induction stages as [| s stages IH]; intros w; cbn [map].
  - rewrite compose_nil, run_Ret. now destruct w.
  - rewrite (compose_cons _ _ d fuel w), run_bind, IH.
    unfold staged_transform at 1.
    rewrite run_bind, run_call. cbn [step fst snd]. now rewrite run_Ret.
Qed.

(** X6. The stages of a construction: every constructor is called, in the
    order supplied, before any transform is; the transforms are then called
    from the last middleware to the first; no handler is run.  The composed
    [dispatch] is the handlers nested in the order supplied, around the base
    [dispatch]. *)
Theorem construction_stages (stages : list Stage)
    (createStore : StoreCreator) reducer args fuel w store u1 :
  createStore reducer args (user w) = (Ok store, u1) ->
  let composed :=
    nest (map (fun s => handler_of s) stages)
         (base_dispatch (dispatch store)) in
  applyMiddleware (map staged stages) createStore reducer args fuel w
  = (Ok {| getState := getState store;
           dispatch := composed;
           rest := rest store |},
     mkWorld composed (wired stages (constructed stages u1)) (calls w)).
Proof.
  intros Hcs composed. subst composed.
  rewrite applyMiddleware_steps, Hcs, run_instantiate_staged,
    run_compose_staged.
  reflexivity.
Qed.

(** ** Middleware that watch *)

Section Watching.

(** [view] is the part of the heap the base container works on. *)
Variables (V : Type) (view : U -> V).

Local Abbreviation keeps_view := (keeps_view view).
Local Abbreviation reads_view_only := (reads_view_only view).

Lemma befores_keep_view bas :
  Forall (fun ba => keeps_view (fst ba) /\ keeps_view (snd ba)) bas ->
  forall u, view (befores bas u) = view u.
Proof.
  induction 1 as [| ba bas [Hb _] _ IH]; intros u; cbn; auto.
  change (fold_left _ bas ?v) with (befores bas v).
  now rewrite IH, Hb.
Qed.

Lemma afters_keep_view bas :
  Forall (fun ba => keeps_view (fst ba) /\ keeps_view (snd ba)) bas ->
  forall u, view (afters bas u) = view u.
Proof.
  induction 1 as [| ba bas [_ Ha] _ IH]; intros u; cbn; auto.
  change (fold_right _ u bas) with (afters bas u).
  now rewrite Ha, IH.
Qed.

(** X7. Middleware that take steps before and after calling [next] without
    touching the part of the heap the base container works on do not
    disturb the container: whatever actions are dispatched through the
    chain, each call gives what the base [dispatch] alone would give, and
    the container's part of the heap goes through the same states. *)
Theorem watchers_do_not_disturb (bas : list ((U -> U) * (U -> U)))
    (createStore : StoreCreator) reducer args fuel w store u1 :
  createStore reducer args (user w) = (Ok store, u1) ->
  Forall (fun ba => keeps_view (fst ba) /\ keeps_view (snd ba)) bas ->
  reads_view_only (dispatch store) ->
  exists s' w',
    applyMiddleware
      (map (fun ba => pure_middleware (around (fst ba) (snd ba))) bas)
      createStore reducer args fuel w
    = (Ok s', w') /\
    forall fuel' todo,
      fst (session fuel' (dispatch s') todo w')
      = fst (base_session (dispatch store) todo u1) /\
      view (user (snd (session fuel' (dispatch s') todo w')))
      = view (snd (base_session (dispatch store) todo u1)).
Proof.
  intros Hcs Hbas Hd.
  rewrite <- (map_map (fun ba => around (fst ba) (snd ba))).
  rewrite (applyMiddleware_pure _ _ _ _ fuel _ Hcs).
  do 2 eexists. split; [reflexivity |]. cbn [dispatch].
  intros fuel' todo.
  set (d := nest _ _).
  assert (Hgen : forall w'' u0, view (user w'') = view u0 ->
    fst (session fuel' d todo w'') = fst (base_session (dispatch store) todo u0)
    /\ view (user (snd (session fuel' d todo w'')))
       = view (snd (base_session (dispatch store) todo u0))).
  { induction todo as [| [action args'] todo IH]; intros w'' u0 Hv;
      cbn [session base_session]; [now split |].
    subst d. rewrite run_around_chain, run_base_dispatch.
    cbn [set_user user].
    destruct (Hd action args' (befores bas (user w'')) u0) as [Ho Hv'].
    { now rewrite befores_keep_view. }
    destruct (dispatch store action args' (befores bas (user w'')))
      as [o u2], (dispatch store action args' u0) as [o' u2'].
    cbn [fst snd] in Ho, Hv'. subst o'.
    destruct o as [r | e |]; cbn [fst snd set_user user].
    - specialize (IH (mkWorld (cell w'') (afters bas u2) (calls w'')) u2').
      cbn [user] in IH. rewrite afters_keep_view in IH by assumption.
      specialize (IH Hv').
      destruct (session fuel' _ todo _) as [os ws],
               (base_session (dispatch store) todo u2') as [os' us].
      cbn [fst snd] in *. destruct IH as [-> ->]. now split.
    - specialize (IH (mkWorld (cell w'') u2 (calls w'')) u2' Hv').
      destruct (session fuel' _ todo _) as [os ws],
               (base_session (dispatch store) todo u2') as [os' us].
      cbn [fst snd] in *. destruct IH as [-> ->]. now split.
    - now split. }
  apply Hgen. reflexivity.
Qed.

End Watching.

End Facts.

(** * The counter: runs and instances *)

Module CounterFacts.

Import Counter.

Open Scope Z_scope.

(** ** The log of loggers *)

Lemma befores_marks labels : forall u,
  befores (map marks labels) u = said (map before labels) u.
Proof.
  induction labels as [| l labels IH]; intros [st lg]; unfold said.
  - cbn. now rewrite app_nil_r.
  - cbn [map befores fold_left marks fst].
    change (fold_left _ (map marks labels) ?v)
      with (befores (map marks labels) v).
    rewrite IH. unfold said, say. cbn [state log].
    now rewrite <- app_assoc.
Qed.

Lemma afters_marks labels : forall u,
  afters (map marks labels) u = said (map after_ (rev labels)) u.
Proof.
  induction labels as [| l labels IH]; intros [st lg]; unfold said.
  - cbn. now rewrite app_nil_r.
  - cbn [map afters fold_right marks snd rev].
    change (fold_right _ ?v (map marks labels))
      with (afters (map marks labels) v).
    rewrite IH, map_app. unfold said, say. cbn [state log map].
    now rewrite <- app_assoc.
Qed.

Lemma loggers_pure labels :
  map logger labels
  = map (@pure_middleware Z Action Z Action Heap)
        (map (fun ba => around (fst ba) (snd ba)) (map marks labels)).
Proof. now rewrite !map_map. Qed.

(** The log of one call through loggers: the [before] lines in the order of
    [labels], what the base [dispatch] does, the [after] lines in the
    opposite order. *)
Lemma loggers_trace (labels : list string)
    (createStore : Creator) reducer args fuel w store u1 :
  createStore reducer args (user w) = (Ok store, u1) ->
  exists s' w',
    applyMiddleware (map logger labels) createStore reducer args fuel w
    = (Ok s', w') /\
    user w' = u1 /\
    forall fuel' action args' (w'' : Wld),
      run fuel' (dispatch s' action args') w''
      = match dispatch store action args'
                (said (map before labels) (user w'')) with
        | (Ok r, u2) =>
            (Ok r, set_user w'' (said (map after_ (rev labels)) u2))
        | (o, u2) => (o, set_user w'' u2)
        end.
Proof.
  intros Hcs. rewrite loggers_pure.
  rewrite (applyMiddleware_pure _ _ _ _ fuel _ Hcs).
  do 2 eexists. split; [reflexivity |]. split; [reflexivity |].
  intros fuel' action args' w''. cbn [dispatch].
  rewrite run_around_chain, run_base_dispatch, befores_marks.
  cbn [set_user user].
  destruct (dispatch store action args' _) as [[r | e |] u2];
    cbn [fst snd set_user user cell calls]; auto.
  now rewrite afters_marks.
Qed.

(** ** Runs *)

Example ABC_trace :
  dispatched built_ABC 0 (add 2)
  = (Ok (add 2),
     mkHeap 7 ["A-before"; "B-before"; "C-before";
               "C-after"; "B-after"; "A-after"]%string).
Proof. reflexivity. Qed.

Example announced_in_order :
  returned (fst built_announced) = true /\
  log (user (snd built_announced)) = ["one"; "two"; "three"]%string.
Proof. split; reflexivity. Qed.

(** A negative amount stops at the refusing handler: [C] and the reducer do
    not run.  Another amount goes through. *)
Example refusing_trace :
  dispatched built_refusing 0 (add (-4))
  = (Ok (add (-4)), mkHeap 0 ["A-before"; "A-after"]%string) /\
  dispatched built_refusing 0 (add 4)
  = (Ok (add 4),
     mkHeap 4 ["A-before"; "C-before"; "C-after"; "A-after"]%string).
Proof. split; reflexivity. Qed.

(** The action [X] dispatched from inside the handler goes through the whole
    chain, [A] first, before the outer call reaches its [next]; with no fuel
    for the nested call the run does not return. *)
Example reentrant_trace :
  dispatched built_reentrant 1 (mkAction "Y" 1)
  = (Ok (mkAction "Y" 1),
     mkHeap 2 ["A-before";
               "A-before"; "C-before"; "C-after"; "A-after";
               "C-before"; "C-after"; "A-after"]%string) /\
  fst (dispatched built_reentrant 0 (mkAction "Y" 1)) = Diverge.
Proof. split; reflexivity. Qed.

(** One unit of fuel is enough for that call; more changes nothing. *)
Example reentrant_enough_fuel more :
  dispatched built_reentrant (more + 1) (mkAction "Y" 1)
  = dispatched built_reentrant 1 (mkAction "Y" 1).
Proof.
  unfold dispatched.
  assert (E : run 1 (dispatch (container built_reentrant) (mkAction "Y" 1) [])
                  (snd built_reentrant)
              = (Ok (mkAction "Y" 1),
                 snd (run 1 (dispatch (container built_reentrant)
                               (mkAction "Y" 1) []) (snd built_reentrant))))
    by reflexivity.
  rewrite (@run_enough_fuel _ _ _ _ _ _ _ _ _ _ E ltac:(discriminate) more).
  now rewrite E.
Qed.

(** ** The theorems at these runs *)

Lemma handlers_in_supplied_order_ABC :
  exists s' w',
    applyMiddleware (map logger ["A"; "B"; "C"]%string) createStore reducer
                    [5] 0%nat w0 = (Ok s', w') /\
    run 0 (dispatch s' (add 2) []) w'
    = (Ok (add 2),
       set_user w' (mkHeap 7 ["A-before"; "B-before"; "C-before";
                              "C-after"; "B-after"; "A-after"]%string)).
Proof.
  destruct (handlers_in_supplied_order (map marks ["A"; "B"; "C"]%string)
              createStore reducer [5] 0 w0 (store := counter_store reducer)
              (u1 := mkHeap 5 []) eq_refl)
    as (s' & w' & H & Hu & Hd).
  exists s', w'. split; [exact H |]. rewrite Hd, Hu. reflexivity.
Defined.

Lemma no_middleware_is_base_counter :
  exists s' w',
    applyMiddleware [] createStore reducer [3] 0%nat w0 = (Ok s', w') /\
    fst (session 0 (dispatch s') [(add 1, []); (add 2, [])] w')
    = [Ok (add 1); Ok (add 2)] /\
    state (user (snd (session 0 (dispatch s') [(add 1, []); (add 2, [])] w')))
    = 6.
Proof.
  destruct (no_middleware_is_base createStore reducer [3] 0 w0
              (store := counter_store reducer) (u1 := mkHeap 3 []) eq_refl)
    as (s' & w' & H & _ & _ & _ & _ & Hs).
  exists s', w'. split; [exact H |].
  destruct (Hs 0%nat [(add 1, []); (add 2, [])]) as [-> ->].
  split; reflexivity.
Defined.

Lemma dispatch_bound_reentrant :
  cell (snd built_reentrant) = dispatch (container built_reentrant) /\
  run 2 (api_dispatch (middlewareAPI (counter_store reducer))
                      (mkAction "Y" 1) [])
        (snd built_reentrant)
  = run 1 (dispatch (container built_reentrant) (mkAction "Y" 1) [])
        (note_call (snd built_reentrant) (mkAction "Y" 1) []) /\
  fst (run 2 (api_dispatch (middlewareAPI (counter_store reducer))
                           (mkAction "Y" 1) [])
             (snd built_reentrant))
  = Ok (mkAction "Y" 1).
Proof.
  assert (Hb : built_reentrant
               = (Ok (container built_reentrant), snd built_reentrant))
    by reflexivity.
  destruct (dispatch_bound_after_construction _ _ _ _ _ _ Hb)
    as (store & u1 & chain & w2 & w3 & Hcs & _ & _ & _ & _ & _ & _ & _
        & Hlater).
  injection Hcs as <- _.
  destruct (Hlater (snd built_reentrant) (later_now _)) as [Hc Hcall].
  split; [exact Hc |]. split; [apply Hcall | reflexivity].
Defined.

Lemma constructors_once_in_order_announced :
  fst built_announced
  = Ok {| getState := getState (counter_store reducer);
          dispatch := base_dispatch (dispatch (counter_store reducer));
          rest := tt |} /\
  user (snd built_announced) = mkHeap 0 ["one"; "two"; "three"]%string.
Proof.
  destruct (@constructors_once_in_order _ _ _ _ _ _ _
              [announcer "one"; announcer "two"; announcer "three"]
              createStore reducer [0] 2%nat w0
              (counter_store reducer) (mkHeap 0 []) eq_refl)
    as [_ Hfixed].
  unfold built_announced.
  rewrite (Hfixed
             [pure_transform (fun next => next);
              pure_transform (fun next => next);
              pure_transform (fun next => next)]
             (guarded w0 (mkHeap 0 ["one"; "two"; "three"]%string))).
  - split; reflexivity.
  - econstructor; [reflexivity |].
    econstructor; [reflexivity |].
    econstructor; [reflexivity | constructor].
Defined.


Lemma base_store_untouched_refusing :
  nth_error
    (snd (applyMiddleware_objects
            [logger "A"; pure_middleware refuse_negative; logger "C"]
            createStore reducer [0] 2%nat w0 []))
    0
  = Some (BaseObject (counter_store reducer)).
Proof.
  destruct (applyMiddleware_objects
              [logger "A"; pure_middleware refuse_negative; logger "C"]
              createStore reducer [0] 2%nat w0 [])
    as [[r w'] objs'] eqn:Hrun.
  pose proof (@base_store_untouched _ _ _ _ _ _ _
                [logger "A"; pure_middleware refuse_negative; logger "C"]
                createStore reducer [0] 2%nat w0 []
                (counter_store reducer) (mkHeap 0 []) eq_refl) as Hbase.
  cbv zeta in Hbase.
  destruct (Hbase r w' objs' Hrun) as [Hstore _].
  exact Hstore.
Defined.

Lemma constructor_error_propagates_failing :
  applyMiddleware [announcer "one"; failing; announcer "three"]
                  createStore reducer [0] 0%nat w0
  = (Threw (Error "boom"), guarded w0 (mkHeap 0 ["one"%string])).
Proof.
  refine (@constructor_error_propagates _ _ _ _ _ _ _
            [announcer "one"] failing createStore reducer [0] 0%nat w0
            (counter_store reducer) (mkHeap 0 [])
            [pure_transform (fun next => next)]
            (guarded w0 (mkHeap 0 ["one"%string])) (Error "boom")
            (guarded w0 (mkHeap 0 ["one"%string]))
            eq_refl _ eq_refl [announcer "three"]).
  econstructor; [reflexivity | constructor].
Defined.

Lemma guard_call_uncaught_rash :
  fst (applyMiddleware [cautious; rash; announcer "two"] createStore reducer
                       [0] 1%nat w0)
  = Threw guard_error.
Proof.
  assert (Hfree : catch_free (rash (middlewareAPI (counter_store reducer)))).
  { cbn. auto. }
  assert (Hpre : instantiated (middlewareAPI (counter_store reducer)) 1
                   [cautious] (guarded w0 (mkHeap 0 []))
                   [pure_transform (fun next => next)]
                   (note_call (guarded w0 (mkHeap 0 [])) (add 1) [])).
  { econstructor; [reflexivity | constructor]. }
  assert (Hcalls :
    calls (snd (run 1 (rash (middlewareAPI (counter_store reducer)))
                    (note_call (guarded w0 (mkHeap 0 [])) (add 1) [])))
    <> calls (note_call (guarded w0 (mkHeap 0 [])) (add 1) [])).
  { vm_compute. discriminate. }
  destruct (@guard_call_uncaught _ _ _ _ _ _ _ [cautious] rash createStore
              reducer [0] 1%nat w0 (counter_store reducer) (mkHeap 0 [])
              _ _ eq_refl Hpre Hfree Hcalls) as [_ H].
  exact (f_equal fst (H [announcer "two"])).
Defined.

(** C1 as worded fails: the constructor [cautious] calls [api.dispatch], the
    guard throws, the constructor catches the error, and the construction
    returns a container. *)
Lemma caught_guard_call_returns :
  ~ guard_call_fails_construction [cautious] createStore reducer [0] 1%nat w0.
Proof.
  intros H.
  specialize (H (counter_store reducer) (mkHeap 0 []) eq_refl).
  assert (Hcalls :
    calls (snd (run 1 (instantiate (middlewareAPI (counter_store reducer))
                                   [cautious])
                      (guarded w0 (mkHeap 0 []))))
    <> calls (guarded w0 (mkHeap 0 []))) by (vm_compute; discriminate).
  specialize (H Hcalls). vm_compute in H. discriminate.
Qed.

Lemma guard_error_at_the_call_counter :
  fst (applyMiddleware [cautious; announcer "two"] createStore reducer [0]
                       1%nat w0)
  = fst (applyMiddleware [pass; announcer "two"] createStore reducer [0]
                         1%nat w0) /\
  applyMiddleware [rash; announcer "two"] createStore reducer [0] 1%nat w0
  = (Threw guard_error, note_call (guarded w0 (mkHeap 0 [])) (add 1) []).
Proof.
  pose proof (@guard_error_at_the_call _ _ _ _ _ _ _
                [] [announcer "two"] (fun _ _ => Ret (add 0))
                (fun api _ => pass api) (add 1) [] createStore reducer [0]
                0%nat w0 (counter_store reducer) (mkHeap 0 []) eq_refl) as H.
  cbv zeta in H. destruct H as (_ & [H2 _] & H3).
  split; [exact H2 |].
  exact (H3 [] _ (inst_nil _ _ _)).
Defined.

(** C9 as worded fails: the constructor [rash] calls [api.dispatch], the
    guard's error leaves the constructor, and the construction ends with it:
    no container is returned and the constructor after [rash] is not
    called. *)
Lemma uncaught_guard_call_unwinds :
  ~ guard_call_spares_construction [rash; announcer "two"] createStore reducer
      [0] 1%nat w0.
Proof.
  intros H.
  specialize (H (counter_store reducer) (mkHeap 0 []) eq_refl).
  assert (Hcalls :
    calls (snd (run 1 (instantiate (middlewareAPI (counter_store reducer))
                                   [rash; announcer "two"])
                      (guarded w0 (mkHeap 0 []))))
    <> calls (guarded w0 (mkHeap 0 []))) by (vm_compute; discriminate).
  specialize (H Hcalls). vm_compute in H. discriminate.
Qed.

Example rash_then_announcer :
  applyMiddleware [rash; announcer "two"] createStore reducer [0] 1%nat w0
  = (Threw guard_error, note_call (guarded w0 (mkHeap 0 [])) (add 1) []).
Proof. reflexivity. Qed.

Example cautious_then_announcer :
  returned (fst (applyMiddleware [cautious; announcer "two"] createStore
                   reducer [0] 1%nat w0)) = true /\
  log (user (snd (applyMiddleware [cautious; announcer "two"] createStore
                    reducer [0] 1%nat w0))) = ["two"%string].
Proof. split; reflexivity. Qed.

(** [A] before a handler that refuses, [C] after it: for a negative amount
    the composed [dispatch] runs as if the [next] of the refusing handler
    were the guard, which would throw if it were called. *)
Lemma short_circuit_refusing :
  dispatched built_refusing 0 (add (-4))
  = (Ok (add (-4)), mkHeap 0 ["A-before"; "A-after"]%string).
Proof.
  assert (Hb : built_refusing
               = (Ok (container built_refusing), snd built_refusing))
    by reflexivity.
  destruct (@short_circuit _ _ _ _ _ _ _
              [logger "A"] (pure_middleware refuse_negative)
              (fun _ => refuse_negative) [logger "C"]
              createStore reducer [0] 2%nat w0 _ _ (add (-4)) []
              (fun _ => eq_refl) (fun _ _ _ _ _ => eq_refl) Hb)
    as (store & u1 & outer & w1 & inner & w2 & nk & wk & w3
        & _ & _ & _ & _ & _ & Hbas).
  destruct (Hbas [marks "A"] eq_refl) as (_ & _ & Hret).
  unfold dispatched.
  rewrite (Hret (add (-4)) (fun _ => eq_refl) 0%nat (snd built_refusing)).
  reflexivity.
Defined.

(** The enhancer that patches the base container in place, for contrast,
    does not leave the object of the base container as it was. *)
Example patching_touches_base :
  nth_error
    (snd (applyMiddleware_patching [logger "A"] createStore reducer [0]
                                   2%nat w0 []))
    0
  <> Some (BaseObject (counter_store reducer)).
Proof. cbn. discriminate. Qed.

(** ** Failures and stages at these runs *)

Lemma base_constructor_failure_broken :
  applyMiddleware [announcer "one"] broken_createStore reducer [0] 0%nat w0
  = (Threw (Error "no store"), w0).
Proof.
  exact (base_constructor_failure [announcer "one"] broken_createStore
           reducer [0] 0 w0 eq_refl eq_refl).
Defined.

Lemma transform_failure_bad_wiring :
  applyMiddleware [announcer "one"; bad_wiring] createStore reducer [0]
                  0%nat w0
  = (Threw (Error "bad transform"), guarded w0 (mkHeap 0 ["one"%string])) /\
  cell (guarded w0 (mkHeap 0 ["one"%string])) = guard.
Proof.
  refine (@transform_failure _ _ _ _ _ _ _
            [announcer "one"; bad_wiring] createStore reducer [0] 0%nat w0
            (counter_store reducer) (mkHeap 0 [])
            [pure_transform (fun next => next);
             fun _ => Throw (Error "bad transform")]
            (guarded w0 (mkHeap 0 ["one"%string]))
            (Threw (Error "bad transform"))
            (guarded w0 (mkHeap 0 ["one"%string]))
            eq_refl _ eq_refl eq_refl).
  econstructor; [reflexivity |]. econstructor; [reflexivity | constructor].
Defined.

Lemma guard_while_composing_eager :
  applyMiddleware [logger "A"; eager] createStore reducer [0] 1%nat w0
  = (Threw guard_error, note_call (guarded w0 (mkHeap 0 [])) (add 1) []).
Proof.
  refine (proj2 (@guard_while_composing _ _ _ _ _ _ _
            [logger "A"; eager] createStore reducer [0] 0%nat w0
            (counter_store reducer) (mkHeap 0 [])
            [pure_transform (around (say (before "A")) (say (after_ "A")))]
            []
            (fun next =>
               bind (api_dispatch (middlewareAPI (counter_store reducer))
                                  (add 1) []) (fun _ => Ret next))
            (guarded w0 (mkHeap 0 []))
            (base_dispatch (dispatch (counter_store reducer)))
            (guarded w0 (mkHeap 0 [])) (add 1) []
            (fun _ => Ret (base_dispatch (dispatch (counter_store reducer))))
            eq_refl _ eq_refl eq_refl)).
  econstructor; [reflexivity |]. econstructor; [reflexivity | constructor].
Defined.

Lemma forwarding_is_base_three :
  exists s' w',
    applyMiddleware [pass; pass; pass] createStore reducer [3] 0%nat w0
    = (Ok s', w') /\
    fst (session 0 (dispatch s') [(add 1, []); (add 2, [])] w')
    = [Ok (add 1); Ok (add 2)] /\
    state (user (snd (session 0 (dispatch s') [(add 1, []); (add 2, [])] w')))
    = 6.
Proof.
  destruct (forwarding_is_base 3 createStore reducer [3] 0 w0
              (store := counter_store reducer) (u1 := mkHeap 3 []) eq_refl)
    as (s' & w' & H & _ & _ & _ & Hs).
  exists s', w'. split; [exact H |].
  destruct (Hs 0%nat [(add 1, []); (add 2, [])]) as [-> ->].
  split; reflexivity.
Defined.

Lemma construction_stages_log :
  log (user (snd (applyMiddleware (map staged [stage_of "1"; stage_of "2"])
                    createStore reducer [0] 0%nat w0)))
  = ["construct-1"; "construct-2"; "wire-2"; "wire-1"]%string.
Proof.
  pose proof (construction_stages [stage_of "1"; stage_of "2"] createStore
                reducer [0] 0 w0 (store := counter_store reducer)
                (u1 := mkHeap 0 []) eq_refl) as H.
  cbv zeta in H. rewrite H. reflexivity.
Defined.

Lemma watchers_do_not_disturb_loggers :
  exists s' w',
    applyMiddleware (map logger ["A"; "B"]%string) createStore reducer [3]
                    0%nat w0 = (Ok s', w') /\
    fst (session 0 (dispatch s') [(add 1, []); (add 2, [])] w')
    = [Ok (add 1); Ok (add 2)] /\
    state (user (snd (session 0 (dispatch s') [(add 1, []); (add 2, [])] w')))
    = 6.
Proof.
  destruct (@watchers_do_not_disturb _ _ _ _ _ _ _ _ state
              (map marks ["A"; "B"]%string) createStore reducer [3] 0%nat w0
              (counter_store reducer) (mkHeap 3 []) eq_refl)
    as (s' & w' & H & Hs).
  - repeat constructor.
  - intros action args u u' Hv. cbn. now rewrite Hv.
  - exists s', w'. split; [exact H |].
    destruct (Hs 0%nat [(add 1, []); (add 2, [])]) as [-> ->].
    split; reflexivity.
Defined.

End CounterFacts.
